(** * TCKC Federal Litigation Threat Tracker: the query engine of [server.js]

    A shallow embedding of the three request handlers of
    [tckc-litigation-tracker/server.js] ([handleLitigationAPI],
    [handleSearchAPI], [handleStatsAPI]) together with [loadDatabase] and
    the route table, of the relevance search described by the specification,
    and the properties of the filter / search / statistics engine proved
    about them.

    Modelling conventions.
    - A JavaScript string is a [string], each character standing for the
      code unit of the same number. Case conversion acts on the ASCII letters
      and leaves every other character alone; the properties that depend on
      letter case are stated through the comparison the code makes, or for
      strings that differ in the case of ASCII letters only.
    - [URLSearchParams] is an association list; [get] returns the value of
      the first pair with the given name, or nothing.
    - A litigation entry is a record with the fields the handlers read, typed
      as the README's "Database Structure" gives them; [subAgency] is the
      only field the code treats as optional.
    - The accumulator objects of the statistics reducers are finite maps from
      property name to stored value, with the lookup rules of an object
      literal (members inherited from [Object.prototype] included).
    - A handler is a function from the outcome of reading the database file
      and the query parameters to the response it writes. *)

From Stdlib Require Import String Ascii List Bool Arith Lia Sorted.
From stdpp Require Import gmap strings list fin_maps sorting.
Import ListNotations.

Local Open Scope string_scope.
Local Open Scope list_scope.

(** ** JavaScript string primitives *)

Module Js.

Definition is_lower_letter (c : ascii) : bool :=
  let n := nat_of_ascii c in (97 <=? n)%nat && (n <=? 122)%nat.

Definition is_upper_letter (c : ascii) : bool :=
  let n := nat_of_ascii c in (65 <=? n)%nat && (n <=? 90)%nat.

Definition upperChar (c : ascii) : ascii :=
  if is_lower_letter c then ascii_of_nat (nat_of_ascii c - 32) else c.

Definition lowerChar (c : ascii) : ascii :=
  if is_upper_letter c then ascii_of_nat (nat_of_ascii c + 32) else c.

Fixpoint mapChars (f : ascii -> ascii) (s : string) : string :=
  match s with
  | EmptyString => EmptyString
  | String c s' => String (f c) (mapChars f s')
  end.

(** [s.toUpperCase()] and [s.toLowerCase()], on the ASCII letters. *)
Definition toUpperCase : string -> string := mapChars upperChar.
Definition toLowerCase : string -> string := mapChars lowerChar.

(** [s.startsWith(t)] *)
Fixpoint startsWith (s t : string) {struct t} : bool :=
  match t, s with
  | EmptyString, _ => true
  | String _ _, EmptyString => false
  | String b t', String a s' => Ascii.eqb a b && startsWith s' t'
  end.

(** [s.includes(t)]: [t] occurs in [s] at some position. *)
Fixpoint includes (s t : string) : bool :=
  startsWith s t ||
  match s with
  | EmptyString => false
  | String _ s' => includes s' t
  end.

Definition space : ascii := " "%char.

(** [s.split(' ')]: the pieces of [s] between single spaces; never empty,
    and an empty piece appears for every leading, trailing or doubled
    space. *)
Fixpoint split_space (s : string) : list string :=
  match s with
  | EmptyString => [EmptyString]
  | String c s' =>
      if Ascii.eqb c space then EmptyString :: split_space s'
      else match split_space s' with
           | [] => [String c EmptyString]
           | w :: ws => String c w :: ws
           end
  end.

(** [parts.join(' ')] *)
Fixpoint join_space (parts : list string) : string :=
  match parts with
  | [] => EmptyString
  | [p] => p
  | p :: rest => p ++ String space (join_space rest)
  end.

(** Truthiness of a string: only the empty string is falsy. *)
Definition nonEmpty (s : string) : bool :=
  match s with EmptyString => false | String _ _ => true end.

End Js.

(** ** The database document *)

Record AgencyRef := {
  agency : string;
  subAgency : option string
}.

Record ClaimsAndLegalBasis := {
  summary : string
}.

Record CulturalImpactAnalysis := {
  affectedCommunities : list string;
  narrativeAssessment : string
}.

Record Entry := {
  id : string;
  caseName : string;
  filingDate : string;
  currentStatus : string;
  claimsAndLegalBasis : ClaimsAndLegalBasis;
  agenciesInvolved : list AgencyRef;
  culturalImpactAnalysis : CulturalImpactAnalysis;
  classification : string
}.

Record Metadata := {
  lastUpdated : string
}.

Record Database := {
  metadata : Metadata;
  litigationEntries : list Entry
}.

(** The value [JSON.parse] hands back: a falsy one ([null], [false], [0],
    the empty string) or a database document. *)
Inductive JsonValue :=
| Falsy
| Document (db : Database).

(** A call that either returns or throws. *)
Inductive attempt (A : Type) :=
| Returned (a : A)
| Thrown.
Arguments Returned {A} a.
Arguments Thrown {A}.

(** [loadDatabase]: read the file and parse it; any exception is caught and
    [null] is returned. [file] is the outcome of [fs.readFileSync]. *)
Definition loadDatabase (JSON_parse : string -> attempt JsonValue)
    (file : attempt string) : JsonValue :=
  match file with
  | Returned data =>
      match JSON_parse data with
      | Returned db => db
      | Thrown => Falsy
      end
  | Thrown => Falsy
  end.

(** ** Query parameters *)

Definition SearchParams := list (string * string).

(** [params.get(name)] *)
Definition params_get (name : string) (params : SearchParams) : option string :=
  match List.find (fun kv => String.eqb (fst kv) name) params with
  | Some kv => Some (snd kv)
  | None => None
  end.

(** ** Responses *)

(** A value stored in an accumulator object of the statistics reducers: a
    number, or the text that [(f || 0) + 1] produces when [f] is a member
    inherited from [Object.prototype] (always a non-empty string). *)
Inductive StoredValue :=
| Num (n : nat)
| Text.

Inductive Body :=
| ErrorBody (error : string)
| LitigationBody (count : nat) (entries : list Entry) (meta : Metadata)
| SearchBody (query : string) (count : nat) (results : list Entry)
| StatsBody (totalEntries : nat)
    (byClassification byAgency byCommunity byStatus : gmap string StoredValue)
    (updated : string).

Record Response := {
  statusCode : nat;
  body : Body
}.

Definition databaseNotAvailable : Response :=
  {| statusCode := 500; body := ErrorBody "Database not available" |}.

Definition searchQueryRequired : Response :=
  {| statusCode := 400; body := ErrorBody "Search query required" |}.

(** ** GET /api/litigation *)

(** [if (v) { entries = entries.filter(keep(v)) }], where [v] is what
    [params.get] returned: [null] and the empty string are falsy. *)
Definition filterWhen (v : option string) (keep : string -> Entry -> bool)
    (entries : list Entry) : list Entry :=
  match v with
  | Some s => if Js.nonEmpty s then List.filter (keep s) entries else entries
  | None => entries
  end.

Definition classificationIs (criterion : string) (e : Entry) : bool :=
  String.eqb (classification e) (Js.toUpperCase criterion).

Definition agencyRefMatches (criterion : string) (a : AgencyRef) : bool :=
  String.eqb (Js.toUpperCase (agency a)) (Js.toUpperCase criterion)
  || match subAgency a with
     | Some sub =>
         Js.nonEmpty sub
         && Js.includes (Js.toUpperCase sub) (Js.toUpperCase criterion)
     | None => false
     end.

Definition agencyInvolved (criterion : string) (e : Entry) : bool :=
  List.existsb (agencyRefMatches criterion) (agenciesInvolved e).

Definition communityAffected (criterion : string) (e : Entry) : bool :=
  List.existsb
    (fun c => Js.includes (Js.toLowerCase c) (Js.toLowerCase criterion))
    (affectedCommunities (culturalImpactAnalysis e)).

Definition statusIncludes (criterion : string) (e : Entry) : bool :=
  Js.includes (Js.toLowerCase (currentStatus e)) (Js.toLowerCase criterion).

Definition idIs (criterion : string) (e : Entry) : bool :=
  String.eqb (id e) criterion.

(** The five successive filters of [handleLitigationAPI]. *)
Definition filterEntries (params : SearchParams) (entries : list Entry)
    : list Entry :=
  let entries := filterWhen (params_get "classification" params) classificationIs entries in
  let entries := filterWhen (params_get "agency" params) agencyInvolved entries in
  let entries := filterWhen (params_get "community" params) communityAffected entries in
  let entries := filterWhen (params_get "status" params) statusIncludes entries in
  let entries := filterWhen (params_get "id" params) idIs entries in
  entries.

Definition handleLitigationAPI (JSON_parse : string -> attempt JsonValue)
    (file : attempt string) (params : SearchParams) : Response :=
  match loadDatabase JSON_parse file with
  | Falsy => databaseNotAvailable
  | Document db =>
      let entries := filterEntries params (litigationEntries db) in
      {| statusCode := 200;
         body := LitigationBody (length entries) entries (metadata db) |}
  end.

(** ** GET /api/litigation/search *)

Definition searchableFields (entry : Entry) : list string :=
  [caseName entry;
   summary (claimsAndLegalBasis entry);
   narrativeAssessment (culturalImpactAnalysis entry)]
  ++ List.map agency (agenciesInvolved entry)
  ++ affectedCommunities (culturalImpactAnalysis entry).

Definition searchableText (entry : Entry) : string :=
  Js.toLowerCase (Js.join_space (searchableFields entry)).

Definition searchTerms (query : string) : list string :=
  Js.split_space (Js.toLowerCase query).

Definition searchMatches (query : string) (entry : Entry) : bool :=
  List.forallb (fun term => Js.includes (searchableText entry) term)
    (searchTerms query).

Definition searchEntries (query : string) (entries : list Entry) : list Entry :=
  List.filter (searchMatches query) entries.

Definition handleSearchAPI (JSON_parse : string -> attempt JsonValue)
    (file : attempt string) (params : SearchParams) : Response :=
  match loadDatabase JSON_parse file with
  | Falsy => databaseNotAvailable
  | Document db =>
      match params_get "q" params with
      | Some query =>
          if Js.nonEmpty query then
            let results := searchEntries query (litigationEntries db) in
            {| statusCode := 200;
               body := SearchBody query (length results) results |}
          else searchQueryRequired
      | None => searchQueryRequired
      end
  end.

(** ** GET /api/litigation/stats *)

(** The property names an object literal [{}] inherits from
    [Object.prototype]; reading any of them on a fresh accumulator yields a
    function (or, for [__proto__], the prototype object), which is truthy. *)
Definition OBJECT_PROTOTYPE_KEYS : list string :=
  ["constructor"; "hasOwnProperty"; "isPrototypeOf"; "propertyIsEnumerable";
   "toLocaleString"; "toString"; "valueOf"; "__proto__";
   "__defineGetter__"; "__defineSetter__";
   "__lookupGetter__"; "__lookupSetter__"].

Definition inherited (key : string) : bool :=
  List.existsb (String.eqb key) OBJECT_PROTOTYPE_KEYS.

(** [acc[key] = (acc[key] || 0) + 1] on an accumulator that started as [{}].
    An own numeric property is incremented (a stored [0] is falsy and becomes
    [1], which is the same); an own text property stays text. Without an own
    property, an inherited member makes the sum a text, which is stored as an
    own property except under [__proto__], whose setter ignores it; any other
    key reads [undefined] and is set to [1]. *)
Definition bump (acc : gmap string StoredValue) (key : string)
    : gmap string StoredValue :=
  match acc !! key with
  | Some (Num n) => <[key := Num (n + 1)]> acc
  | Some Text => <[key := Text]> acc
  | None =>
      if inherited key then
        if String.eqb key "__proto__" then acc else <[key := Text]> acc
      else <[key := Num 1]> acc
  end.

(** The status bucket computed inside the [byStatus] reducer. *)
Definition statusCategory (e : Entry) : string :=
  let status := Js.toLowerCase (currentStatus e) in
  if Js.includes status "injunction granted"
     || Js.includes status "judgment for plaintiffs" then "Protective Outcomes"
  else if Js.includes status "active" || Js.includes status "pending" then
    "Active Litigation"
  else if Js.includes status "dismissed" || Js.includes status "withdrew" then
    "Dismissed/Withdrawn"
  else if Js.includes status "review" || Js.includes status "watch" then
    "Under Review"
  else "Other".

Definition countByClassification (entries : list Entry) : gmap string StoredValue :=
  List.fold_left (fun acc e => bump acc (classification e)) entries ∅.

Definition countByAgency (entries : list Entry) : gmap string StoredValue :=
  List.fold_left
    (fun acc e =>
       List.fold_left (fun acc a => bump acc (agency a)) (agenciesInvolved e) acc)
    entries ∅.

Definition countByCommunity (entries : list Entry) : gmap string StoredValue :=
  List.fold_left
    (fun acc e =>
       List.fold_left (fun acc c => bump acc c)
         (affectedCommunities (culturalImpactAnalysis e)) acc)
    entries ∅.

Definition countByStatus (entries : list Entry) : gmap string StoredValue :=
  List.fold_left (fun acc e => bump acc (statusCategory e)) entries ∅.

Definition handleStatsAPI (JSON_parse : string -> attempt JsonValue)
    (file : attempt string) (params : SearchParams) : Response :=
  match loadDatabase JSON_parse file with
  | Falsy => databaseNotAvailable
  | Document db =>
      let entries := litigationEntries db in
      {| statusCode := 200;
         body := StatsBody (length entries)
                   (countByClassification entries)
                   (countByAgency entries)
                   (countByCommunity entries)
                   (countByStatus entries)
                   (lastUpdated (metadata db)) |}
  end.

(** The sum of the values of an accumulator: a number when all of them are
    numbers, nothing otherwise. *)
Definition addValue (v : StoredValue) (total : option nat) : option nat :=
  match v, total with
  | Num n, Some t => Some (n + t)
  | _, _ => None
  end.

Definition sumValues (m : gmap string StoredValue) : option nat :=
  map_fold (fun _ => addValue) (Some 0) m.

(** The count an accumulator holds under a key ([acc[key] || 0], as the
    dashboard reads it). *)
Definition countOf (m : gmap string StoredValue) (key : string) : nat :=
  match m !! key with
  | Some (Num n) => n
  | _ => 0
  end.

(** ** Dispatch *)

Inductive Handler :=
| HandleLitigationAPI
| HandleSearchAPI
| HandleStatsAPI
| HandleAgenciesAPI.

(** [API_ROUTES], in the order [Object.entries] enumerates it. *)
Definition API_ROUTES : list (string * Handler) :=
  [("/api/litigation", HandleLitigationAPI);
   ("/api/litigation/search", HandleSearchAPI);
   ("/api/litigation/stats", HandleStatsAPI);
   ("/api/agencies", HandleAgenciesAPI)].

(** The loop of the request listener: the handler of the first route the
    path starts with, or none (a static file is served). *)
Definition dispatch (pathname : string) : option Handler :=
  match List.find (fun r => Js.startsWith pathname (fst r)) API_ROUTES with
  | Some r => Some (snd r)
  | None => None
  end.

(** ** Vocabulary of the specification *)

(** [needle] occurs in [hay] as a contiguous substring. *)
Definition occursIn (needle hay : string) : Prop :=
  exists pre post : string, hay = (pre ++ needle ++ post)%string.

(** Equality and containment up to letter case. *)
Definition equalIgnoringCase (a b : string) : Prop :=
  Js.toLowerCase a = Js.toLowerCase b.

Definition containsIgnoringCase (hay needle : string) : Prop :=
  occursIn (Js.toLowerCase needle) (Js.toLowerCase hay).

(** Equality and containment after [toUpperCase], the comparison the filter
    applies to the classification and to the agency codes. *)
Definition equalInUpperCase (a b : string) : Prop :=
  Js.toUpperCase a = Js.toUpperCase b.

Definition containsInUpperCase (hay needle : string) : Prop :=
  occursIn (Js.toUpperCase needle) (Js.toUpperCase hay).

(** Two characters that are the same or the two cases of one ASCII letter,
    and two strings that differ at most in the case of ASCII letters. *)
Definition caseVariant (c d : ascii) : bool :=
  let n := nat_of_ascii c in
  let m := nat_of_ascii d in
  (n =? m)%nat
  || ((65 <=? n)%nat && (n <=? 90)%nat && (m =? n + 32)%nat)
  || ((97 <=? n)%nat && (n <=? 122)%nat && (m =? n - 32)%nat).

Fixpoint sameUpToAsciiCase (a b : string) : bool :=
  match a, b with
  | EmptyString, EmptyString => true
  | String c a', String d b' => caseVariant c d && sameUpToAsciiCase a' b'
  | _, _ => false
  end.

(** The value a query string gives to a name, that of the first pair with
    this name; a criterion is requested when that value is not empty. *)
Definition firstValue (params : SearchParams) (name value : string) : Prop :=
  exists front back,
    params = front ++ (name, value) :: back /\ forall v, ~ In (name, v) front.

Definition requested (params : SearchParams) (name criterion : string) : Prop :=
  firstValue params name criterion /\ criterion <> ""%string.

(** A criterion is provided when the parameter is present and not empty. *)
Definition provided (params : SearchParams) (name criterion : string) : Prop :=
  params_get name params = Some criterion /\ criterion <> ""%string.

(** What each criterion of the filter asks of a record. *)
Definition agencyCriterion (criterion : string) (e : Entry) : Prop :=
  exists a : AgencyRef,
    In a (agenciesInvolved e) /\
    (equalInUpperCase (agency a) criterion \/
     exists sub : string,
       subAgency a = Some sub /\ containsInUpperCase sub criterion).

Definition communityCriterion (criterion : string) (e : Entry) : Prop :=
  exists c : string,
    In c (affectedCommunities (culturalImpactAnalysis e)) /\
    containsIgnoringCase c criterion.

Definition satisfies (params : SearchParams) (e : Entry) : Prop :=
  (forall c, requested params "classification" c ->
             equalInUpperCase (classification e) c) /\
  (forall c, requested params "agency" c -> agencyCriterion c e) /\
  (forall c, requested params "community" c -> communityCriterion c e) /\
  (forall c, requested params "status" c ->
             containsIgnoringCase (currentStatus e) c) /\
  (forall c, requested params "id" c -> id e = c).

(** What the filter asks of a record to keep it: the requested criteria,
    the classification being the upper-cased criterion itself. *)
Definition fulfils (params : SearchParams) (e : Entry) : Prop :=
  (forall c, requested params "classification" c ->
             classification e = Js.toUpperCase c) /\
  (forall c, requested params "agency" c -> agencyCriterion c e) /\
  (forall c, requested params "community" c -> communityCriterion c e) /\
  (forall c, requested params "status" c ->
             containsIgnoringCase (currentStatus e) c) /\
  (forall c, requested params "id" c -> id e = c).



(** A string without any space. *)
Fixpoint spaceFree (s : string) : bool :=
  match s with
  | EmptyString => true
  | String c s' => negb (Ascii.eqb c " "%char) && spaceFree s'
  end.

(** The terms of a query: the space-free parts it is made of, one space
    between any two of them. *)
Inductive splitsInto : string -> list string -> Prop :=
| splits_one term :
    spaceFree term = true -> splitsInto term [term]
| splits_more term rest terms :
    spaceFree term = true -> splitsInto rest terms ->
    splitsInto (term ++ " " ++ rest)%string (term :: terms).

(** The filter as the code applies it, stated as a property of a record:
    [satisfies] with the classification clause read the way the code compares
    it, against the upper-cased criterion. *)
Definition meets (params : SearchParams) (e : Entry) : Prop :=
  (forall c, provided params "classification" c ->
             classification e = Js.toUpperCase c) /\
  (forall c, provided params "agency" c -> agencyCriterion c e) /\
  (forall c, provided params "community" c -> communityCriterion c e) /\
  (forall c, provided params "status" c ->
             containsIgnoringCase (currentStatus e) c) /\
  (forall c, provided params "id" c -> id e = c).

(** The names [handleLitigationAPI] looks up. *)
Definition FILTER_PARAMS : list string :=
  ["classification"; "agency"; "community"; "status"; "id"].

(** One-pass view of the filter: the test a record passes under every
    criterion that is present and not empty. *)
Definition passes (v : option string) (keep : string -> Entry -> bool)
    (e : Entry) : bool :=
  match v with
  | Some s => if Js.nonEmpty s then keep s e else true
  | None => true
  end.

Definition keeps (params : SearchParams) (e : Entry) : bool :=
  passes (params_get "classification" params) classificationIs e
  && passes (params_get "agency" params) agencyInvolved e
  && passes (params_get "community" params) communityAffected e
  && passes (params_get "status" params) statusIncludes e
  && passes (params_get "id" params) idIs e.

(** The classification values of the data model. *)
Definition CLASSIFICATIONS : list string :=
  ["CRITICAL"; "MODERATE"; "PROTECTIVE"; "WATCH"].

(** The status buckets. *)
Definition STATUS_CATEGORIES : list string :=
  ["Protective Outcomes"; "Active Litigation"; "Dismissed/Withdrawn";
   "Under Review"; "Other"].

(** The ordered checks that decide a status bucket: each bucket is chosen by
    its own phrases, provided no earlier bucket was. *)
Definition mentions (status phrase : string) : Prop :=
  containsIgnoringCase status phrase.

Definition protectiveStatus (status : string) : Prop :=
  mentions status "injunction granted" \/ mentions status "judgment for plaintiffs".

Definition activeStatus (status : string) : Prop :=
  mentions status "active" \/ mentions status "pending".

Definition dismissedStatus (status : string) : Prop :=
  mentions status "dismissed" \/ mentions status "withdrew".

Definition reviewStatus (status : string) : Prop :=
  mentions status "review" \/ mentions status "watch".

Inductive statusBucket (status : string) : string -> Prop :=
| bucket_protective :
    protectiveStatus status -> statusBucket status "Protective Outcomes"
| bucket_active :
    ~ protectiveStatus status -> activeStatus status ->
    statusBucket status "Active Litigation"
| bucket_dismissed :
    ~ protectiveStatus status -> ~ activeStatus status ->
    dismissedStatus status -> statusBucket status "Dismissed/Withdrawn"
| bucket_review :
    ~ protectiveStatus status -> ~ activeStatus status ->
    ~ dismissedStatus status -> reviewStatus status ->
    statusBucket status "Under Review"
| bucket_other :
    ~ protectiveStatus status -> ~ activeStatus status ->
    ~ dismissedStatus status -> ~ reviewStatus status ->
    statusBucket status "Other".

(** The number of records of a collection whose key is [key]. *)
Definition tally (keyOf : Entry -> string) (key : string) (entries : list Entry)
    : nat :=
  length (List.filter (fun e => String.eqb (keyOf e) key) entries).

(** The year component of a record's date, [YYYY] of [YYYY-MM-DD]. *)
Definition yearOf (e : Entry) : string :=
  String.substring 0 4 (filingDate e).

(** A query made of white space only (space, tab, line feed, carriage
    return). *)
Definition isWhiteSpace (c : ascii) : bool :=
  Ascii.eqb c " "%char || Ascii.eqb c "009"%char
  || Ascii.eqb c "010"%char || Ascii.eqb c "013"%char.

Fixpoint whiteSpaceOnly (s : string) : bool :=
  match s with
  | EmptyString => true
  | String c s' => isWhiteSpace c && whiteSpaceOnly s'
  end.

(** The backing file cannot be read, or its contents cannot be parsed. *)
Definition loadFails (JSON_parse : string -> attempt JsonValue)
    (file : attempt string) : Prop :=
  file = Thrown \/ exists data, file = Returned data /\ JSON_parse data = Thrown.

(** A successful answer carrying an empty result set. *)
Definition emptySuccess (r : Response) : Prop :=
  statusCode r = 200 /\
  match body r with
  | LitigationBody count entries _ => count = 0 /\ entries = []
  | SearchBody _ count results => count = 0 /\ results = []
  | _ => False
  end.

(** ** Relevance search

    [searchWithRelevance] belongs to [utils/search.js], which the usage notes
    of [tckc-reference-sections-code.jsx] import and call; the server has no
    scoring of its own. The definitions of this module follow section 4.2 of
    the specification. *)

Module Relevance.

(** Modelled from the spec: the weights of [searchWithRelevance], whose
    numeric values the specification leaves open. [primaryWeight] is the
    weight of a match in the case name, [secondaryWeight] of a match in the
    narrative or in a community label, [otherWeight] of a match in any other
    searchable field. *)
Record Weights := {
  primaryWeight : nat;
  secondaryWeight : nat;
  otherWeight : nat
}.

(** Modelled from the spec: the options of [searchWithRelevance]; an absent
    [minScore] excludes nothing and an absent [maxResults] is unbounded. *)
Record Options := {
  minScore : nat;
  maxResults : option nat
}.

(** Modelled from the spec: the terms of a query in [searchWithRelevance],
    "tokenized by whitespace into lowercase terms". *)
Definition tokens (query : string) : list string :=
  String.words (Js.toLowerCase query).

(** Modelled from the spec: a hit of a term in a field of
    [searchWithRelevance], the field containing the term up to case. *)
Definition hit (field term : string) : nat :=
  if Js.includes (Js.toLowerCase field) (Js.toLowerCase term) then 1 else 0.

Definition hits (fields : list string) (term : string) : nat :=
  list_sum (List.map (fun field => hit field term) fields).

(** Modelled from the spec: the score of [searchWithRelevance], "sum weighted
    hits per term" with the case name as primary field and the narrative and
    the community labels as secondary fields. *)
Definition termScore (w : Weights) (e : Entry) (term : string) : nat :=
  primaryWeight w * hit (caseName e) term
  + secondaryWeight w
    * hits (narrativeAssessment (culturalImpactAnalysis e)
            :: affectedCommunities (culturalImpactAnalysis e)) term
  + otherWeight w
    * hits (summary (claimsAndLegalBasis e)
            :: List.map agency (agenciesInvolved e)) term.

Definition score (w : Weights) (terms : list string) (e : Entry) : nat :=
  list_sum (List.map (termScore w e) terms).

(** Modelled from the spec: the match of [searchWithRelevance], every term
    appearing in the concatenated searchable text. *)
Definition matchesAll (terms : list string) (e : Entry) : bool :=
  List.forallb
    (fun term => Js.includes (searchableText e) (Js.toLowerCase term)) terms.

(** Modelled from the spec: the ordering of [searchWithRelevance], "sorted by
    descending score, ties broken by original collection order (stable
    sort)": a record is placed in front of the first ranked record that does
    not score higher. *)
Fixpoint place (rank : Entry -> nat) (e : Entry) (ranked : list Entry)
    : list Entry :=
  match ranked with
  | [] => [e]
  | r :: rest =>
      if (rank r <=? rank e)%nat then e :: ranked
      else r :: place rank e rest
  end.

(** [a] is ranked no lower than [b]. *)
Definition outranks (rank : Entry -> nat) (a b : Entry) : Prop :=
  rank b <= rank a.

Definition sortByScore (rank : Entry -> nat) (records : list Entry) : list Entry :=
  List.fold_right (place rank) [] records.

(** Modelled from the spec: [searchWithRelevance(records, query, options)],
    which keeps the records matching every term, drops those scoring below
    [minScore], ranks the rest and truncates to [maxResults]. *)
Definition searchWithRelevance (w : Weights) (records : list Entry)
    (query : string) (options : Options) : list Entry :=
  let terms := tokens query in
  let matching := List.filter (matchesAll terms) records in
  let eligible :=
    List.filter (fun e => (minScore options <=? score w terms e)%nat) matching in
  let ranked := sortByScore (score w terms) eligible in
  match maxResults options with
  | Some limit => List.firstn limit ranked
  | None => ranked
  end.

End Relevance.

(** The ranking scenario: a term found in the title of one record, and in
    the narrative only of another. *)
Definition inTitle (term : string) (e : Entry) : Prop :=
  containsIgnoringCase (caseName e) term.

Definition inNarrativeOnly (term : string) (e : Entry) : Prop :=
  containsIgnoringCase (narrativeAssessment (culturalImpactAnalysis e)) term
  /\ ~ containsIgnoringCase (caseName e) term
  /\ ~ containsIgnoringCase (summary (claimsAndLegalBasis e)) term
  /\ (forall a, In a (agenciesInvolved e) -> ~ containsIgnoringCase (agency a) term)
  /\ (forall label, In label (affectedCommunities (culturalImpactAnalysis e)) ->
                    ~ containsIgnoringCase label term).

(** ** A small database used to evaluate the handlers *)

Definition entryA : Entry := {|
  id := "EPA-2025-001";
  caseName := "Alpha Coalition v. EPA";
  filingDate := "2025-02-14";
  currentStatus := "Active, under review";
  claimsAndLegalBasis := {| summary := "Challenge to the rescission of grants" |};
  agenciesInvolved :=
    [{| agency := "EPA"; subAgency := Some "Office of Environmental Justice" |}];
  culturalImpactAnalysis := {|
    affectedCommunities := ["Indigenous"; "Rural"];
    narrativeAssessment := "Beta programs for sacred sites are at risk" |};
  classification := "CRITICAL"
|}.

Definition entryB : Entry := {|
  id := "DOI-2024-007";
  caseName := "Tribal Council v. Interior";
  filingDate := "2024-03-01";
  currentStatus := "Dismissed";
  claimsAndLegalBasis := {| summary := "Alpha lease review" |};
  agenciesInvolved := [{| agency := "DOI"; subAgency := Some "BIA" |};
                       {| agency := "USDA"; subAgency := None |}];
  culturalImpactAnalysis := {|
    affectedCommunities := ["Indigenous"];
    narrativeAssessment := "Land management plan upheld" |};
  classification := "PROTECTIVE"
|}.

Definition entryC : Entry := {|
  id := "ED-2025-003";
  caseName := "Heritage Alliance v. Department of Education";
  filingDate := "2025-04-22";
  currentStatus := "active, under review";
  claimsAndLegalBasis := {| summary := "Funding conditions" |};
  agenciesInvolved := [];
  culturalImpactAnalysis := {|
    affectedCommunities := [];
    narrativeAssessment := "Indigenous language programs" |};
  classification := "WATCH"
|}.

Definition sampleDatabase : Database := {|
  metadata := {| lastUpdated := "2025-06-01" |};
  litigationEntries := [entryA; entryB]
|}.

(** A stand-in for [JSON.parse] on three file contents: a document, the
    literal [null], and anything else, which is a syntax error. *)
Definition sampleParse (data : string) : attempt JsonValue :=
  if String.eqb data "{sample}" then Returned (Document sampleDatabase)
  else if String.eqb data "null" then Returned Falsy
  else Thrown.

Definition sampleFile : attempt string := Returned "{sample}".

Definition entryD : Entry := {|
  id := "DOI-2025-011";
  caseName := "Indigenous Peoples Coalition v. Interior";
  filingDate := "2025-05-09";
  currentStatus := "Pending";
  claimsAndLegalBasis := {| summary := "Sacred site access" |};
  agenciesInvolved := [{| agency := "DOI"; subAgency := None |}];
  culturalImpactAnalysis := {|
    affectedCommunities := ["Tribal nations"];
    narrativeAssessment := "Access to ceremonial grounds" |};
  classification := "CRITICAL"
|}.

Definition sampleWeights : Relevance.Weights := {|
  Relevance.primaryWeight := 10;
  Relevance.secondaryWeight := 3;
  Relevance.otherWeight := 1
|}.

(** ** The request listener and static files of [server.js] *)

(** [MIME_TYPES] *)
Definition MIME_TYPES : list (string * string) :=
  [(".html", "text/html");
   (".css", "text/css");
   (".js", "application/javascript");
   (".json", "application/json");
   (".png", "image/png");
   (".jpg", "image/jpeg");
   (".gif", "image/gif");
   (".svg", "image/svg+xml");
   (".ico", "image/x-icon")].

(** The value of a [Content-Type] header: a string, or a member that the
    lookup [MIME_TYPES[ext]] inherited from [Object.prototype]. *)
Inductive HeaderValue :=
| Mime (type : string)
| InheritedMember.

(** [MIME_TYPES[ext] || 'application/octet-stream']; every listed type is a
    non-empty string. *)
Definition contentTypeFor (ext : string) : HeaderValue :=
  match List.find (fun kv => String.eqb (fst kv) ext) MIME_TYPES with
  | Some kv => Mime (snd kv)
  | None =>
      if inherited ext then InheritedMember
      else Mime "application/octet-stream"
  end.

(** The outcome of [fs.readFile]: the data, an error whose code is [ENOENT],
    or another error. *)
Inductive ReadResult :=
| FileData (data : string)
| NoEntry
| OtherError.

(** What the static file server asks of Node: [path.join(__dirname,
    'public', pathname)], [path.extname] and [fs.readFile]. *)
Record FileSystem := {
  path_join : string -> string;
  path_extname : string -> string;
  readFile : string -> ReadResult
}.

(** What the listener writes: an empty 200 for a preflight, the JSON of a
    handler, the [agencyCategories] member of the document, or a file. *)
Inductive Reply :=
| Preflight
| Json (response : Response)
| AgencyCategories (db : Database)
| StaticFile (code : nat) (contentType : HeaderValue) (content : string).

Definition serveStaticFile (fs : FileSystem) (pathname : string) : Reply :=
  let pathname := if String.eqb pathname "/" then "/index.html" else pathname in
  let filePath := path_join fs pathname in
  let ext := Js.toLowerCase (path_extname fs filePath) in
  let contentType := contentTypeFor ext in
  match readFile fs filePath with
  | NoEntry => StaticFile 404 (Mime "text/html") "<h1>404 - File Not Found</h1>"
  | OtherError =>
      StaticFile 500 (Mime "text/html") "<h1>500 - Internal Server Error</h1>"
  | FileData data => StaticFile 200 contentType data
  end.

Definition handleAgenciesAPI (JSON_parse : string -> attempt JsonValue)
    (file : attempt string) : Reply :=
  match loadDatabase JSON_parse file with
  | Falsy => Json databaseNotAvailable
  | Document db => AgencyCategories db
  end.

(** The callback of [http.createServer]: [method] is [req.method],
    [pathname] and [params] are those of the request URL. *)
Definition requestListener (JSON_parse : string -> attempt JsonValue)
    (file : attempt string) (fs : FileSystem)
    (method pathname : string) (params : SearchParams) : Reply :=
  if String.eqb method "OPTIONS" then Preflight
  else
    match dispatch pathname with
    | Some HandleLitigationAPI => Json (handleLitigationAPI JSON_parse file params)
    | Some HandleSearchAPI => Json (handleSearchAPI JSON_parse file params)
    | Some HandleStatsAPI => Json (handleStatsAPI JSON_parse file params)
    | Some HandleAgenciesAPI => handleAgenciesAPI JSON_parse file
    | None => serveStaticFile fs pathname
    end.

(** ** The front end, [public/app.js] *)

(** The characters [trim] strips, among those a [string] holds: tab, line
    feed, vertical tab, form feed, carriage return, space and, past the ASCII
    range, the no-break space. *)
Definition isTrimSpace (c : ascii) : bool :=
  Ascii.is_space c || Ascii.eqb c "160"%char.

(** [s.trim()] *)
Fixpoint trimStart (s : string) : string :=
  match s with
  | EmptyString => EmptyString
  | String c s' => if isTrimSpace c then trimStart s' else s
  end.

Fixpoint trimEnd (s : string) : string :=
  match s with
  | EmptyString => EmptyString
  | String c s' =>
      match trimEnd s' with
      | EmptyString => if isTrimSpace c then EmptyString else String c EmptyString
      | rest => String c rest
      end
  end.

Definition trim (s : string) : string := trimEnd (trimStart s).

(** The globals [allEntries] and [filteredEntries]; the latter is
    [undefined] when it was assigned a member the reply does not have. *)
Record AppState := {
  allEntries : list Entry;
  filteredEntries : option (list Entry)
}.

(** [data.results] of a parsed reply. *)
Definition resultsOf (data : Body) : option (list Entry) :=
  match data with
  | SearchBody _ _ results => Some results
  | _ => None
  end.

(** The query [performSearch] sends, if it sends one. *)
Definition searchRequest (input : string) : option string :=
  let query := trim input in
  if Js.nonEmpty query then Some query else None.

(** [performSearch]: [input] is the value of the search box, [reply] the
    outcome of [fetch] followed by [response.json()] for the query sent. *)
Definition performSearch (input : string) (reply : string -> attempt Body)
    (s : AppState) : AppState :=
  match searchRequest input with
  | None =>
      {| allEntries := allEntries s; filteredEntries := Some (allEntries s) |}
  | Some query =>
      match reply query with
      | Returned data =>
          {| allEntries := allEntries s; filteredEntries := resultsOf data |}
      | Thrown => s
      end
  end.

(** The test of [applyFilters] on one entry; the three arguments are the
    values of the select boxes. *)
Definition filterMatch (classificationValue agencyValue communityValue : string)
    (entry : Entry) : bool :=
  let matched := true in
  let matched :=
    if Js.nonEmpty classificationValue
       && negb (String.eqb (classification entry) classificationValue)
    then false else matched in
  let matched :=
    if Js.nonEmpty agencyValue
       && negb (List.existsb (fun a => String.eqb (agency a) agencyValue)
                  (agenciesInvolved entry))
    then false else matched in
  let matched :=
    if Js.nonEmpty communityValue
       && negb (List.existsb
                  (fun c => Js.includes (Js.toLowerCase c)
                              (Js.toLowerCase communityValue))
                  (affectedCommunities (culturalImpactAnalysis entry)))
    then false else matched in
  matched.

Definition applyFilters (classificationValue agencyValue communityValue : string)
    (s : AppState) : AppState :=
  {| allEntries := allEntries s;
     filteredEntries :=
       Some (List.filter
               (filterMatch classificationValue agencyValue communityValue)
               (allEntries s)) |}.

(** The cases listed by [showAgencyCases] and [showCommunityCases], and the
    count written by [updateCommunityStats]. *)
Definition showAgencyCases (agencyValue : string) (entries : list Entry)
    : list Entry :=
  List.filter
    (fun e => List.existsb (fun a => String.eqb (agency a) agencyValue)
                (agenciesInvolved e))
    entries.

Definition showCommunityCases (community : string) (entries : list Entry)
    : list Entry :=
  List.filter
    (fun e => List.existsb
                (fun c => Js.includes (Js.toLowerCase c) (Js.toLowerCase community))
                (affectedCommunities (culturalImpactAnalysis e)))
    entries.

Definition updateCommunityStats (community : string) (entries : list Entry)
    : nat :=
  length (showCommunityCases community entries).

(** What [renderDashboard] writes: the four stat cards and the case cards
    of [criticalCases]. *)
Record Dashboard := {
  statCritical : StoredValue;
  statProtective : StoredValue;
  statModerate : StoredValue;
  statWatch : StoredValue;
  criticalCards : list Entry
}.

(** [counts.KEY || 0], read on a [byClassification] object that exists; a
    key that names an inherited member reads that member. *)
Definition statCard (counts : gmap string StoredValue) (key : string)
    : StoredValue :=
  match counts !! key with
  | Some (Num 0) => Num 0
  | Some value => value
  | None => if inherited key then Text else Num 0
  end.

(** [renderDashboard]: [stats] is the global, [None] while it is [null] and
    otherwise the parsed reply it was assigned. Nothing is drawn while it is
    [null]. Otherwise the stat cards read [stats.byClassification.KEY], which
    throws when the reply has no [byClassification] member; the two bar
    charts, which read [stats.byAgency] and [stats.byCommunity], come next,
    and then the first six critical entries. *)
Definition renderDashboard (stats : option Body) (entries : list Entry)
    : attempt (option Dashboard) :=
  match stats with
  | None => Returned None
  | Some (StatsBody _ byClassification _ _ _ _) =>
      let criticalCases :=
        List.firstn 6
          (List.filter (fun e => String.eqb (classification e) "CRITICAL")
             entries) in
      Returned (Some {|
        statCritical := statCard byClassification "CRITICAL";
        statProtective := statCard byClassification "PROTECTIVE";
        statModerate := statCard byClassification "MODERATE";
        statWatch := statCard byClassification "WATCH";
        criticalCards := criticalCases |})
  | Some _ => Thrown
  end.

(** A [stats] global assigned as the server of this repository answers
    [GET /api/litigation/stats]. *)
Definition statsAnsweredBy (JSON_parse : string -> attempt JsonValue)
    (file : attempt string) (fs : FileSystem) (stats : option Body) : Prop :=
  exists response,
    requestListener JSON_parse file fs "GET" "/api/litigation/stats" []
    = Json response
    /\ stats = Some (body response).

(** The entry [showCaseDetail] opens, if any. *)
Definition showCaseDetail (caseId : string) (entries : list Entry)
    : option Entry :=
  List.find (fun e => String.eqb (id e) caseId) entries.

(** A [reply] function that answers as the server of this repository does:
    the query is sent as [GET /api/litigation/search?q=query] and the JSON
    written by the listener is what [response.json()] returns. *)
Definition answeredBy (JSON_parse : string -> attempt JsonValue)
    (file : attempt string) (fs : FileSystem)
    (reply : string -> attempt Body) : Prop :=
  forall query response,
    requestListener JSON_parse file fs "GET" "/api/litigation/search"
      [("q", query)] = Json response ->
    reply query = Returned (body response).


(** The document cannot be used: the file cannot be read, its contents
    cannot be parsed, or they parse to a falsy value. *)
Definition noDocument (JSON_parse : string -> attempt JsonValue)
    (file : attempt string) : Prop :=
  loadFails JSON_parse file
  \/ exists data, file = Returned data /\ JSON_parse data = Returned Falsy.

(** Two values of a parameter that are both absent, or both present and
    different at most in the case of ASCII letters. *)
Definition sameUpToCase (v v' : option string) : Prop :=
  match v, v' with
  | Some c, Some c' => sameUpToAsciiCase c c' = true
  | None, None => True
  | _, _ => False
  end.

(** The parameters whose value the filter reads after a case conversion. *)
Definition CASELESS_PARAMS : list string :=
  ["classification"; "agency"; "community"; "status"].

(** A copy of a record under another classification, another identifier. *)
Definition withClassification (value : string) (e : Entry) : Entry :=
  {| id := id e; caseName := caseName e; filingDate := filingDate e;
     currentStatus := currentStatus e;
     claimsAndLegalBasis := claimsAndLegalBasis e;
     agenciesInvolved := agenciesInvolved e;
     culturalImpactAnalysis := culturalImpactAnalysis e;
     classification := value |}.

(** A string made of spaces only, and a string without any space. *)
Fixpoint onlySpaces (s : string) : bool :=
  match s with
  | EmptyString => true
  | String c s' => Ascii.eqb c Js.space && onlySpaces s'
  end.

Fixpoint noSpace (s : string) : bool :=
  match s with
  | EmptyString => true
  | String c s' => negb (Ascii.eqb c Js.space) && noSpace s'
  end.

(** Every agency code and every community label referenced by the records
    of a collection, one element per reference, in order. *)
Definition agencyReferences (entries : list Entry) : list string :=
  List.flat_map (fun e => List.map agency (agenciesInvolved e)) entries.

Definition communityLabels (entries : list Entry) : list string :=
  List.flat_map (fun e => affectedCommunities (culturalImpactAnalysis e)) entries.

(** The number of occurrences of a key in a list. *)
Definition occurrences (key : string) (keys : list string) : nat :=
  length (List.filter (String.eqb key) keys).

(** A string of ASCII characters. *)
Fixpoint asciiOnly (s : string) : bool :=
  match s with
  | EmptyString => true
  | String c s' => (nat_of_ascii c <? 128)%nat && asciiOnly s'
  end.

(** A string made of ASCII white space only. *)
Fixpoint blank (s : string) : bool :=
  match s with
  | EmptyString => true
  | String c s' => Ascii.is_space c && blank s'
  end.

(** ** String lemmas *)

Section StringFacts.

Implicit Types s t u : string.

Lemma string_app_cons a s t : (String a s ++ t)%string = String a (s ++ t).
Proof. reflexivity. Qed.

Lemma string_app_nil_l s : ("" ++ s)%string = s.
Proof. reflexivity. Qed.

Lemma string_app_nil_r s : (s ++ "")%string = s.
Proof. induction s; [reflexivity|]. rewrite string_app_cons. congruence. Qed.

Lemma string_app_assoc s t u : ((s ++ t) ++ u)%string = (s ++ t ++ u)%string.
Proof. induction s; [reflexivity|]. rewrite !string_app_cons. congruence. Qed.

Lemma nonEmpty_true s : Js.nonEmpty s = true <-> s <> ""%string.
Proof. destruct s; simpl; split; congruence. Qed.

Lemma nonEmpty_false s : Js.nonEmpty s = false <-> s = ""%string.
Proof. destruct s; simpl; split; congruence. Qed.

Lemma startsWith_spec s t :
  Js.startsWith s t = true <-> exists post, s = (t ++ post)%string.
Proof.
  revert s. induction t as [|b t IH]; intros s; simpl.
  - split; [intros _; exists s; reflexivity | reflexivity].
  - destruct s as [|a s].
    + split; [discriminate | intros [post H]; discriminate].
    + rewrite andb_true_iff, Ascii.eqb_eq, IH. split.
      * intros [-> [post ->]]. exists post. reflexivity.
      * intros [post H]. injection H as -> ->. eauto.
Qed.

Lemma includes_spec s t : Js.includes s t = true <-> occursIn t s.
Proof.
  unfold occursIn. induction s as [|a s IH]; simpl.
  - rewrite orb_false_r, startsWith_spec. split.
    + intros [post H]. exists ""%string, post. exact H.
    + intros [pre [post H]]. destruct pre; [eauto | discriminate].
  - rewrite orb_true_iff, IH, startsWith_spec. split.
    + intros [[post H] | [pre [post H]]].
      * exists ""%string, post. exact H.
      * exists (String a pre), post. rewrite string_app_cons. now f_equal.
    + intros [pre [post H]]. destruct pre as [|c pre].
      * left. eauto.
      * right. rewrite string_app_cons in H. injection H as _ ->. eauto.
Qed.

Lemma occursIn_empty_needle s : occursIn "" s.
Proof. exists ""%string, s. reflexivity. Qed.

Lemma occursIn_empty_hay t : occursIn t "" -> t = ""%string.
Proof.
  intros [pre [post H]]. destruct pre; [|discriminate].
  destruct t; [reflexivity | discriminate].
Qed.

Lemma mapChars_app f s t :
  Js.mapChars f (s ++ t) = (Js.mapChars f s ++ Js.mapChars f t)%string.
Proof.
  induction s; [reflexivity|]. rewrite string_app_cons. simpl.
  rewrite string_app_cons. congruence.
Qed.

Lemma mapChars_compose f g s :
  Js.mapChars f (Js.mapChars g s) = Js.mapChars (fun c => f (g c)) s.
Proof. induction s; simpl; congruence. Qed.

Lemma mapChars_ext f g s :
  (forall c, f c = g c) -> Js.mapChars f s = Js.mapChars g s.
Proof. intros H. induction s; simpl; congruence. Qed.

Lemma mapChars_empty f s : Js.mapChars f s = ""%string <-> s = ""%string.
Proof. destruct s; simpl; split; congruence. Qed.

Lemma lowerChar_upperChar c : Js.lowerChar (Js.upperChar c) = Js.lowerChar c.
Proof. destruct c as [[] [] [] [] [] [] [] []]; reflexivity. Qed.

Lemma upperChar_lowerChar c : Js.upperChar (Js.lowerChar c) = Js.upperChar c.
Proof. destruct c as [[] [] [] [] [] [] [] []]; reflexivity. Qed.

Lemma lowerChar_idem c : Js.lowerChar (Js.lowerChar c) = Js.lowerChar c.
Proof. destruct c as [[] [] [] [] [] [] [] []]; reflexivity. Qed.

Lemma lowerChar_space c :
  Ascii.eqb (Js.lowerChar c) Js.space = Ascii.eqb c Js.space.
Proof. destruct c as [[] [] [] [] [] [] [] []]; reflexivity. Qed.

Lemma toLowerCase_idem s : Js.toLowerCase (Js.toLowerCase s) = Js.toLowerCase s.
Proof.
  unfold Js.toLowerCase. rewrite mapChars_compose.
  apply mapChars_ext, lowerChar_idem.
Qed.

Lemma occursIn_mapChars f t s :
  occursIn t s -> occursIn (Js.mapChars f t) (Js.mapChars f s).
Proof.
  intros [pre [post ->]]. exists (Js.mapChars f pre), (Js.mapChars f post).
  now rewrite !mapChars_app.
Qed.

Lemma lower_includes_ignoring_case s t :
  Js.includes (Js.toLowerCase s) (Js.toLowerCase t) = true
  <-> containsIgnoringCase s t.
Proof. apply includes_spec. Qed.

Lemma containsIgnoringCase_empty_hay t :
  containsIgnoringCase "" t -> t = ""%string.
Proof.
  unfold containsIgnoringCase. simpl. intros H.
  apply occursIn_empty_hay in H. now apply mapChars_empty in H.
Qed.

(** Lower-casing commutes with splitting on spaces. *)
Lemma split_space_toLowerCase s :
  Js.split_space (Js.toLowerCase s) = List.map Js.toLowerCase (Js.split_space s).
Proof.
  induction s as [|c s IH]; [reflexivity|].
  change (Js.toLowerCase (String c s))
    with (String (Js.lowerChar c) (Js.toLowerCase s)).
  simpl. rewrite lowerChar_space, IH.
  destruct (Ascii.eqb c Js.space); [reflexivity|].
  destruct (Js.split_space s); reflexivity.
Qed.

End StringFacts.

(** ** Evaluating the string primitives *)

Example split_two_terms : Js.split_space "alpha beta" = ["alpha"; "beta"].
Proof. reflexivity. Qed.

Example split_blank : Js.split_space " " = [""; ""].
Proof. reflexivity. Qed.

Example join_three : Js.join_space ["a"; "b c"; "d"] = "a b c d".
Proof. reflexivity. Qed.

Example upper_mixed : Js.toUpperCase "Epa-9z" = "EPA-9Z".
Proof. reflexivity. Qed.

(** ** The filter of [handleLitigationAPI] *)

Section FilterFacts.

Lemma filter_all {A} (l : list A) : List.filter (fun _ => true) l = l.
Proof. induction l; simpl; congruence. Qed.

Lemma filter_twice {A} (f g : A -> bool) (l : list A) :
  List.filter g (List.filter f l) = List.filter (fun x => f x && g x) l.
Proof.
  induction l as [|x l IH]; [reflexivity|]. simpl.
  destruct (f x); simpl; [destruct (g x)|]; congruence.
Qed.

Lemma filter_is_sublist {A} (f : A -> bool) (l : list A) :
  sublist (List.filter f l) l.
Proof.
  induction l as [|x l IH]; simpl; [constructor|].
  destruct (f x); now constructor.
Qed.

Lemma filter_none {A} (f : A -> bool) (l : list A) :
  (forall x, In x l -> f x = false) -> List.filter f l = [].
Proof.
  induction l as [|x l IH]; intros H; [reflexivity|]. simpl.
  rewrite (H x) by now left. apply IH. intros y Hy. apply H. now right.
Qed.

Lemma filterWhen_passes v keep entries :
  filterWhen v keep entries = List.filter (passes v keep) entries.
Proof.
  unfold filterWhen, passes. destruct v as [s|]; [destruct (Js.nonEmpty s)|];
    auto using filter_all, eq_sym.
Qed.

(** The five successive filters keep exactly the records that pass all
    five tests. *)
Lemma filterEntries_one_pass params entries :
  filterEntries params entries = List.filter (keeps params) entries.
Proof.
  unfold filterEntries. rewrite !filterWhen_passes, !filter_twice.
  apply filter_ext. intros e. unfold keeps. now rewrite !andb_assoc.
Qed.

Lemma passes_provided params name keep e :
  passes (params_get name params) keep e = true
  <-> forall c, provided params name c -> keep c e = true.
Proof.
  unfold passes, provided. destruct (params_get name params) as [s|].
  - destruct (Js.nonEmpty s) eqn:Hs.
    + apply nonEmpty_true in Hs. split.
      * intros H c [[= <-] _]. exact H.
      * intros H. now apply H.
    + apply nonEmpty_false in Hs. subst s. split; [|reflexivity].
      intros _ c [[= <-] Hc]. now destruct Hc.
  - split; [|reflexivity]. intros _ c [[=] _].
Qed.

Lemma upperChar_idem c : Js.upperChar (Js.upperChar c) = Js.upperChar c.
Proof. destruct c as [[] [] [] [] [] [] [] []]; reflexivity. Qed.

Lemma toUpperCase_idem s : Js.toUpperCase (Js.toUpperCase s) = Js.toUpperCase s.
Proof.
  unfold Js.toUpperCase. rewrite mapChars_compose.
  apply mapChars_ext, upperChar_idem.
Qed.

Lemma containsInUpperCase_spec s t :
  Js.includes (Js.toUpperCase s) (Js.toUpperCase t) = true
  <-> containsInUpperCase s t.
Proof. apply includes_spec. Qed.

Lemma containsInUpperCase_empty_hay t :
  containsInUpperCase "" t -> t = ""%string.
Proof.
  unfold containsInUpperCase. intros H.
  apply occursIn_empty_hay in H. now apply mapChars_empty in H.
Qed.

(** Characters and strings that differ at most in the case of ASCII letters
    have the same upper-case and the same lower-case form. *)
Lemma caseVariant_cases c d :
  caseVariant c d = true -> d = c \/ d = Js.lowerChar c \/ d = Js.upperChar c.
Proof.
  unfold caseVariant. cbv zeta. rewrite !orb_true_iff, !andb_true_iff.
  intros [[H|[[Hlow Hhigh] H]]|[[Hlow Hhigh] H]]; apply Nat.eqb_eq in H.
  - left. rewrite <- (ascii_nat_embedding c), <- (ascii_nat_embedding d).
    now rewrite H.
  - right; left. unfold Js.lowerChar, Js.is_upper_letter. cbv zeta.
    rewrite Hlow, Hhigh. simpl. rewrite <- H. symmetry. apply ascii_nat_embedding.
  - right; right. unfold Js.upperChar, Js.is_lower_letter. cbv zeta.
    rewrite Hlow, Hhigh. simpl. rewrite <- H. symmetry. apply ascii_nat_embedding.
Qed.

Lemma caseVariant_upper c d :
  caseVariant c d = true -> Js.upperChar c = Js.upperChar d.
Proof.
  intros H. destruct (caseVariant_cases c d H) as [->|[->| ->]];
    [reflexivity | now rewrite upperChar_lowerChar | now rewrite upperChar_idem].
Qed.

Lemma caseVariant_lower c d :
  caseVariant c d = true -> Js.lowerChar c = Js.lowerChar d.
Proof.
  intros H. destruct (caseVariant_cases c d H) as [->|[->| ->]];
    [reflexivity | now rewrite lowerChar_idem | now rewrite lowerChar_upperChar].
Qed.

Lemma sameUpToAsciiCase_forms a b :
  sameUpToAsciiCase a b = true ->
  Js.toUpperCase a = Js.toUpperCase b /\ Js.toLowerCase a = Js.toLowerCase b.
Proof.
  revert b. induction a as [|c a IH]; intros [|d b]; simpl; try discriminate.
  - tauto.
  - intros H. apply andb_true_iff in H as [Hc Ha].
    destruct (IH b Ha) as [Hup Hlow]. unfold Js.toUpperCase, Js.toLowerCase in *.
    simpl. now rewrite (caseVariant_upper c d Hc), (caseVariant_lower c d Hc),
      Hup, Hlow.
Qed.

Lemma sameUpToAsciiCase_nonEmpty a b :
  sameUpToAsciiCase a b = true -> Js.nonEmpty a = Js.nonEmpty b.
Proof. destruct a, b; simpl; congruence. Qed.

(** [params.get] returns the value of the first pair with the name. *)
Lemma params_get_firstValue params name value :
  params_get name params = Some value <-> firstValue params name value.
Proof.
  unfold params_get, firstValue. induction params as [|[k x] params IH]; simpl.
  - split; [discriminate|]. intros (front & back & H & _).
    now destruct front.
  - destruct (String.eqb_spec k name) as [->|Hne].
    + split.
      * intros [= ->]. exists [], params. split; [reflexivity|]. intros v [].
      * intros (front & back & H & Hfront). destruct front as [|[k' x'] front].
        -- now injection H as -> _.
        -- injection H as -> -> _. destruct (Hfront x'). now left.
    + rewrite IH. split.
      * intros (front & back & -> & Hfront). exists ((k, x) :: front), back.
        split; [reflexivity|]. intros v [[= -> _]|Hin]; [congruence|].
        now apply (Hfront v).
      * intros (front & back & H & Hfront). destruct front as [|[k' x'] front].
        -- injection H as -> _. congruence.
        -- injection H as -> -> ->. exists front, back.
           split; [reflexivity|]. intros v Hin. apply (Hfront v). now right.
Qed.

Lemma provided_requested params name criterion :
  provided params name criterion <-> requested params name criterion.
Proof. unfold provided, requested. now rewrite params_get_firstValue. Qed.

Lemma agencyRefMatches_spec criterion a :
  criterion <> ""%string ->
  agencyRefMatches criterion a = true
  <-> equalInUpperCase (agency a) criterion \/
      exists sub, subAgency a = Some sub /\ containsInUpperCase sub criterion.
Proof.
  intros Hc. unfold agencyRefMatches, equalInUpperCase.
  rewrite orb_true_iff, String.eqb_eq.
  apply or_iff_compat_l. destruct (subAgency a) as [sub|].
  - rewrite andb_true_iff, nonEmpty_true, containsInUpperCase_spec. split.
    + intros [_ H]. eauto.
    + intros [sub' [[= <-] H]]. split; [|exact H].
      intros ->. now apply containsInUpperCase_empty_hay in H.
  - split; [discriminate | intros [sub [[=] _]]].
Qed.

Lemma agencyInvolved_spec criterion e :
  criterion <> ""%string ->
  agencyInvolved criterion e = true <-> agencyCriterion criterion e.
Proof.
  intros Hc. unfold agencyInvolved, agencyCriterion.
  rewrite existsb_exists. split; intros [a [Ha H]]; exists a; split; auto;
    now apply (agencyRefMatches_spec criterion a Hc).
Qed.

(** An agency code that differs from the criterion at most in the case of
    ASCII letters matches it. *)
Lemma agencyInvolved_case_variant criterion e a :
  In a (agenciesInvolved e) ->
  sameUpToAsciiCase (agency a) criterion = true ->
  agencyInvolved criterion e = true.
Proof.
  intros Ha Hsame. unfold agencyInvolved. apply existsb_exists. exists a.
  split; [exact Ha|]. unfold agencyRefMatches.
  destruct (sameUpToAsciiCase_forms _ _ Hsame) as [-> _].
  now rewrite String.eqb_refl.
Qed.

Lemma communityAffected_spec criterion e :
  communityAffected criterion e = true <-> communityCriterion criterion e.
Proof.
  unfold communityAffected, communityCriterion. rewrite existsb_exists.
  split; intros [c [Hc H]]; exists c; split; auto;
    now apply lower_includes_ignoring_case.
Qed.

Lemma keeps_meets params e : keeps params e = true <-> meets params e.
Proof.
  unfold keeps, meets. rewrite !andb_true_iff, !passes_provided.
  unfold classificationIs, statusIncludes, idIs.
  split; [intros [[[[H1 H2] H3] H4] H5] | intros (H1 & H2 & H3 & H4 & H5)];
    repeat split; intros c Hc;
    first
      [ now apply String.eqb_eq, H1
      | now apply String.eqb_eq, H5
      | now apply communityAffected_spec, H3
      | now apply lower_includes_ignoring_case, H4
      | apply agencyInvolved_spec; [apply Hc | now apply H2] ].
Qed.

Lemma meets_fulfils params e : meets params e <-> fulfils params e.
Proof.
  unfold meets, fulfils.
  split; intros (H1 & H2 & H3 & H4 & H5); repeat split; intros c Hc;
    first [ now apply H1, provided_requested
          | now apply H2, provided_requested
          | now apply H3, provided_requested
          | now apply H4, provided_requested
          | now apply H5, provided_requested ].
Qed.

Lemma fulfils_satisfies params e : fulfils params e -> satisfies params e.
Proof.
  intros (H1 & H2). split; [|exact H2]. intros c Hc.
  unfold equalInUpperCase. rewrite (H1 c Hc). apply toUpperCase_idem.
Qed.

Lemma in_filterEntries params entries e :
  In e (filterEntries params entries) <-> In e entries /\ meets params e.
Proof. now rewrite filterEntries_one_pass, filter_In, keeps_meets. Qed.

Lemma nothing_provided_meets params e :
  (forall name c, In name FILTER_PARAMS -> ~ provided params name c) ->
  meets params e.
Proof.
  intros H. repeat split; intros c Hc; exfalso; revert Hc; apply H;
    simpl; tauto.
Qed.

End FilterFacts.

(** C1. Subset law of the filter: the output of [filterEntries] is a
    subsequence of the input in the input's order; every record of the output
    satisfies every requested criterion (the first non-empty value the query
    string gives to classification, agency, community, status or id); a
    record of the input is in the output exactly when it fulfils them, so
    criteria that are absent or empty impose no constraint and with none
    requested the output is the input. Letter case is ignored the way the
    filter compares: in upper case for the classification and the agency
    codes, in lower case for community labels and the status. *)
Theorem filter_subset_law (params : SearchParams) (entries : list Entry) :
  sublist (filterEntries params entries) entries
  /\ (forall e, In e (filterEntries params entries) -> satisfies params e)
  /\ (forall e, In e (filterEntries params entries)
                <-> In e entries /\ fulfils params e)
  /\ ((forall name c, In name FILTER_PARAMS -> ~ requested params name c) ->
      filterEntries params entries = entries).
Proof.
  split; [|split; [|split]].
  - rewrite filterEntries_one_pass. apply filter_is_sublist.
  - intros e He. apply in_filterEntries in He as [_ He].
    now apply fulfils_satisfies, meets_fulfils.
  - intros e. now rewrite in_filterEntries, meets_fulfils.
  - intros Hnone. rewrite filterEntries_one_pass.
    rewrite <- (filter_all entries) at 2. apply filter_ext. intros e.
    apply keeps_meets, nothing_provided_meets. intros name c Hname Hc.
    apply (Hnone name c Hname). now apply provided_requested.
Qed.

(** The filter on the sample database. *)
Example filter_by_classification :
  filterEntries [("classification", "critical")] [entryA; entryB] = [entryA].
Proof. reflexivity. Qed.

Example filter_by_sub_agency :
  filterEntries [("agency", "bia")] [entryA; entryB] = [entryB].
Proof. reflexivity. Qed.

Lemma filter_subset_law_sample :
  filterEntries
    [("classification", "critical"); ("status", ""); ("agency", "office of");
     ("agency", "doi")]
    [entryA; entryB; entryC; entryD] = [entryA]
  /\ satisfies
       [("classification", "critical"); ("status", ""); ("agency", "office of");
        ("agency", "doi")] entryA
  /\ filterEntries [("status", "")] [entryA; entryB] = [entryA; entryB].
Proof.
  split; [reflexivity|]. split.
  - apply (filter_subset_law
             [("classification", "critical"); ("status", "");
              ("agency", "office of"); ("agency", "doi")]
             [entryA; entryB; entryC; entryD]).
    now left.
  - apply (filter_subset_law [("status", "")] [entryA; entryB]).
    intros name c Hname Hrequested.
    apply provided_requested in Hrequested as [Hget Hc].
    destruct Hname as [<-|[<-|[<-|[<-|[<-|[]]]]]]; vm_compute in Hget;
      try discriminate.
    injection Hget as <-. now apply Hc.
Defined.

(** ** The [year] criterion *)

Lemma params_get_skip name key value (front back : SearchParams) :
  name <> key ->
  params_get name (front ++ (key, value) :: back) = params_get name (front ++ back).
Proof.
  intros Hne. unfold params_get. induction front as [|[k v] front IH]; simpl.
  - destruct (String.eqb_spec key name); [congruence | reflexivity].
  - destruct (String.eqb k name); [reflexivity | exact IH].
Qed.

Lemma filterEntries_agree params params' entries :
  (forall name, In name FILTER_PARAMS ->
                params_get name params = params_get name params') ->
  filterEntries params entries = filterEntries params' entries.
Proof.
  intros H. unfold filterEntries.
  now rewrite !H by (simpl; tauto).
Qed.

(** C7, as the code has it. [handleLitigationAPI] never looks up a [year]
    parameter: a request carrying one is answered exactly as the same request
    without it. *)
Theorem year_parameter_is_ignored
    (JSON_parse : string -> attempt JsonValue) (file : attempt string)
    (front back : SearchParams) (year : string) :
  handleLitigationAPI JSON_parse file (front ++ ("year", year) :: back)
  = handleLitigationAPI JSON_parse file (front ++ back).
Proof.
  unfold handleLitigationAPI. destruct (loadDatabase JSON_parse file); [reflexivity|].
  rewrite (filterEntries_agree (front ++ ("year", year) :: back) (front ++ back));
    [reflexivity|].
  intros name Hname. apply params_get_skip.
  destruct Hname as [<-|[<-|[<-|[<-|[<-|[]]]]]]; discriminate.
Qed.

(** C7 fails as stated: with [year=2025] provided, the record filed in 2024
    is still part of the output. *)
Lemma year_criterion_not_applied :
  provided [("year", "2025")] "year" "2025"
  /\ In entryB (filterEntries [("year", "2025")] [entryA; entryB])
  /\ yearOf entryB = "2024"%string
  /\ yearOf entryB <> "2025"%string.
Proof.
  split; [split; [reflexivity | discriminate]|].
  split; [right; left; reflexivity|].
  split; [reflexivity | discriminate].
Qed.

(** ** The agency criterion *)

Lemma handleLitigationAPI_loaded JSON_parse file params db :
  loadDatabase JSON_parse file = Document db ->
  handleLitigationAPI JSON_parse file params
  = {| statusCode := 200;
       body := LitigationBody
                 (length (filterEntries params (litigationEntries db)))
                 (filterEntries params (litigationEntries db))
                 (metadata db) |}.
Proof. intros H. unfold handleLitigationAPI. now rewrite H. Qed.

Lemma params_get_single_other name key value :
  String.eqb key name = false -> params_get name [(key, value)] = None.
Proof. intros H. unfold params_get. simpl. now rewrite H. Qed.

Lemma filterEntries_no_agency params criterion entries :
  params_get "agency" params = Some criterion ->
  criterion <> ""%string ->
  (forall e, In e entries -> ~ agencyCriterion criterion e) ->
  filterEntries params entries = [].
Proof.
  intros Hget Hc Hnone. rewrite filterEntries_one_pass. apply filter_none.
  intros e He. apply not_true_is_false. rewrite keeps_meets.
  intros (_ & Hagency & _). apply (Hnone e He), Hagency. now split.
Qed.

(** C8. Agency criterion: a record passes the agency filter exactly when
    one of its agency references has a code equal to the criterion up to case
    or a sub-agency code containing the criterion up to case, both compared
    in upper case; in particular a code that differs from the criterion only
    in the case of its letters matches. A request whose agency criterion
    matches no record of the database is answered with status 200, count 0
    and no entries. *)
Theorem agency_filter_law (criterion : string) (entries : list Entry)
    (Hprovided : criterion <> ""%string) :
  (forall e, agencyInvolved criterion e = true <-> agencyCriterion criterion e)
  /\ (forall e, In e (filterEntries [("agency", criterion)] entries)
                <-> In e entries /\ agencyCriterion criterion e)
  /\ (forall e a,
        In a (agenciesInvolved e) ->
        sameUpToAsciiCase (agency a) criterion = true ->
        agencyCriterion criterion e)
  /\ ((forall e, In e entries -> ~ agencyCriterion criterion e) ->
      forall JSON_parse file params meta,
        loadDatabase JSON_parse file
        = Document {| metadata := meta; litigationEntries := entries |} ->
        requested params "agency" criterion ->
        handleLitigationAPI JSON_parse file params
        = {| statusCode := 200; body := LitigationBody 0 [] meta |}).
Proof.
  split; [|split; [|split]].
  - intros e. now apply agencyInvolved_spec.
  - intros e. rewrite filterEntries_one_pass, filter_In.
    replace (keeps [("agency", criterion)] e) with (agencyInvolved criterion e).
    + now rewrite agencyInvolved_spec.
    + unfold keeps.
      change (params_get "agency" [("agency", criterion)]) with (Some criterion).
      unfold passes at 2. apply nonEmpty_true in Hprovided as ->.
      rewrite !(params_get_single_other _ "agency") by reflexivity.
      cbn [passes]. now rewrite andb_true_l, !andb_true_r.
  - intros e a Ha Hsame. apply agencyInvolved_spec; [exact Hprovided|].
    now apply (agencyInvolved_case_variant criterion e a).
  - intros Hnone JSON_parse file params meta Hload Hget.
    apply provided_requested in Hget as [Hget _].
    rewrite (handleLitigationAPI_loaded _ _ _ _ Hload). cbn [litigationEntries metadata].
    now rewrite (filterEntries_no_agency params criterion entries Hget Hprovided Hnone).
Qed.

Lemma agency_filter_law_sample :
  In entryA (filterEntries [("agency", "epa")] [entryA; entryB])
  /\ In entryB (filterEntries [("agency", "bia")] [entryA; entryB])
  /\ ~ In entryA (filterEntries [("agency", "bia")] [entryA; entryB])
  /\ handleLitigationAPI sampleParse sampleFile [("status", "d"); ("agency", "NASA")]
     = {| statusCode := 200;
          body := LitigationBody 0 [] {| lastUpdated := "2025-06-01" |} |}.
Proof.
  assert (Hepa : "epa"%string <> ""%string) by discriminate.
  assert (Hbia : "bia"%string <> ""%string) by discriminate.
  assert (Hnasa : "NASA"%string <> ""%string) by discriminate.
  destruct (agency_filter_law "epa" [entryA; entryB] Hepa) as (_ & Hepa_in & Hvariant & _).
  destruct (agency_filter_law "bia" [entryA; entryB] Hbia) as (Hbia_iff & Hbia_in & _).
  destruct (agency_filter_law "NASA" [entryA; entryB] Hnasa) as (Hiff & _ & _ & Hzero).
  split; [|split; [|split]].
  - apply Hepa_in. split; [now left|].
    apply (Hvariant entryA {| agency := "EPA";
                              subAgency := Some "Office of Environmental Justice" |});
      [now left | reflexivity].
  - apply Hbia_in. split; [right; now left|].
    exists {| agency := "DOI"; subAgency := Some "BIA" |}.
    split; [now left|]. right. exists "BIA"%string. split; [reflexivity|].
    apply containsInUpperCase_spec. reflexivity.
  - intros Hin. apply Hbia_in in Hin as [_ Hcrit]. apply Hbia_iff in Hcrit.
    vm_compute in Hcrit. discriminate.
  - apply Hzero.
    + intros e He Hcrit. apply Hiff in Hcrit.
      destruct He as [<-|[<-|[]]]; vm_compute in Hcrit; discriminate.
    + reflexivity.
    + split; [|discriminate].
      exists [("status", "d")], []. split; [reflexivity|].
      intros v [[=]|[]].
Defined.

(** ** Search *)

Lemma searchMatches_spec query e :
  searchMatches query e = true
  <-> forall term, In term (Js.split_space query) ->
        containsIgnoringCase (Js.join_space (searchableFields e)) term.
Proof.
  unfold searchMatches, searchTerms, searchableText.
  rewrite forallb_forall, split_space_toLowerCase. split.
  - intros H term Hterm. apply lower_includes_ignoring_case, H.
    now apply in_map.
  - intros H lowered Hin. apply in_map_iff in Hin as [term [<- Hterm]].
    now apply lower_includes_ignoring_case, H.
Qed.

Lemma handleSearchAPI_loaded JSON_parse file params db query :
  loadDatabase JSON_parse file = Document db ->
  params_get "q" params = Some query ->
  query <> ""%string ->
  handleSearchAPI JSON_parse file params
  = {| statusCode := 200;
       body := SearchBody query
                 (length (searchEntries query (litigationEntries db)))
                 (searchEntries query (litigationEntries db)) |}.
Proof.
  intros Hload Hq Hne. unfold handleSearchAPI. rewrite Hload, Hq.
  now apply nonEmpty_true in Hne as ->.
Qed.

Lemma split_space_nonempty s : Js.split_space s <> [].
Proof.
  destruct s as [|c s]; simpl; [discriminate|].
  destruct (Ascii.eqb c Js.space); [discriminate|].
  destruct (Js.split_space s); discriminate.
Qed.

Lemma split_space_app a b :
  Js.split_space (a ++ String Js.space b) = Js.split_space a ++ Js.split_space b.
Proof.
  induction a as [|c a IH]; [reflexivity|].
  rewrite string_app_cons. simpl. rewrite IH.
  destruct (Ascii.eqb c Js.space); [reflexivity|].
  pose proof (split_space_nonempty a) as Hne.
  destruct (Js.split_space a); [congruence | reflexivity].
Qed.



(** Every query has terms. *)
Lemma every_query_splits query : exists terms, splitsInto query terms.
Proof.
  induction query as [|c query IH].
  - exists [""%string]. now constructor.
  - destruct IH as [terms Hterms]. destruct (Ascii.eqb c " ") eqn:Hc.
    + apply Ascii.eqb_eq in Hc as ->. exists (""%string :: terms).
      now apply (splits_more "" query terms).
    + destruct Hterms as [term Hterm|term rest terms Hterm Hrest].
      * exists [String c term]. constructor. cbn [spaceFree]. now rewrite Hc.
      * exists (String c term :: terms).
        apply (splits_more (String c term) rest terms); [|exact Hrest].
        cbn [spaceFree]. now rewrite Hc.
Qed.





(** The query "alpha beta" on the sample database: the first record has
    "Alpha" in its case name and "Beta" in its narrative, the second has
    "Alpha" only. *)
Example search_alpha_beta :
  Js.split_space "alpha beta" = ["alpha"; "beta"]
  /\ searchEntries "alpha beta" [entryA; entryB] = [entryA]
  /\ searchEntries "alpha" [entryA; entryB] = [entryA; entryB].
Proof. repeat split. Qed.


(** C6, as the code has it. When the database loads, the search handler
    answers 400 "Search query required" exactly when the [q] parameter is
    missing or empty. *)
Theorem search_query_required
    (JSON_parse : string -> attempt JsonValue) (file : attempt string)
    (params : SearchParams) (db : Database)
    (Hload : loadDatabase JSON_parse file = Document db) :
  handleSearchAPI JSON_parse file params = searchQueryRequired
  <-> params_get "q" params = None \/ params_get "q" params = Some ""%string.
Proof.
  unfold handleSearchAPI. rewrite Hload.
  destruct (params_get "q" params) as [query|]; [|tauto].
  destruct query; simpl; split; try tauto; try discriminate.
  intros [H|H]; discriminate.
Qed.

Lemma search_query_required_sample :
  handleSearchAPI sampleParse sampleFile [("q", "")] = searchQueryRequired
  /\ handleSearchAPI sampleParse sampleFile [("limit", "5")] = searchQueryRequired.
Proof.
  split.
  - apply (search_query_required sampleParse sampleFile [("q", "")] sampleDatabase);
      [reflexivity | right; reflexivity].
  - apply (search_query_required sampleParse sampleFile [("limit", "5")] sampleDatabase);
      [reflexivity | left; reflexivity].
Defined.

(** C6 fails as stated: a query made of one space is not rejected. It is
    split into two empty terms, which every text contains, and the answer is
    200 with every record; and a missing query on an unreadable database is
    answered 500, not 400. *)
Lemma blank_query_not_rejected :
  whiteSpaceOnly " " = true
  /\ handleSearchAPI sampleParse sampleFile [("q", " ")]
     = {| statusCode := 200; body := SearchBody " " 2 [entryA; entryB] |}
  /\ handleSearchAPI sampleParse Thrown [] = databaseNotAvailable.
Proof. repeat split. Qed.

(** ** Loading the database *)

Lemma loadFails_Falsy JSON_parse file :
  loadFails JSON_parse file -> loadDatabase JSON_parse file = Falsy.
Proof.
  intros [-> | [data [-> Hparse]]]; [reflexivity|].
  unfold loadDatabase. now rewrite Hparse.
Qed.

Lemma loadDatabase_Document JSON_parse file db :
  loadDatabase JSON_parse file = Document db ->
  exists data, file = Returned data /\ JSON_parse data = Returned (Document db).
Proof.
  unfold loadDatabase. destruct file as [data|]; [|discriminate].
  destruct (JSON_parse data) as [v|] eqn:Hparse; [|discriminate].
  intros ->. eauto.
Qed.

Lemma handleStatsAPI_loaded JSON_parse file params db :
  loadDatabase JSON_parse file = Document db ->
  statusCode (handleStatsAPI JSON_parse file params) = 200.
Proof. intros H. unfold handleStatsAPI. now rewrite H. Qed.

(** C5. Data unavailable versus no matches. When the backing file cannot be
    read or parsed, each of the three handlers answers 500 "Database not
    available", which is not a successful answer; a handler that answers 200
    has loaded a document; and on a loaded document a filter or a search that
    matches nothing is answered 200 with count 0 and an empty list. *)
Theorem load_failure_is_reported
    (JSON_parse : string -> attempt JsonValue) (file : attempt string)
    (params : SearchParams) :
  (loadFails JSON_parse file ->
     handleLitigationAPI JSON_parse file params = databaseNotAvailable
     /\ handleSearchAPI JSON_parse file params = databaseNotAvailable
     /\ handleStatsAPI JSON_parse file params = databaseNotAvailable
     /\ statusCode databaseNotAvailable = 500
     /\ ~ emptySuccess databaseNotAvailable)
  /\ (forall handler,
        In handler [handleLitigationAPI; handleSearchAPI; handleStatsAPI] ->
        statusCode (handler JSON_parse file params) = 200 ->
        exists data db,
          file = Returned data /\ JSON_parse data = Returned (Document db))
  /\ (forall db, loadDatabase JSON_parse file = Document db ->
        (filterEntries params (litigationEntries db) = [] ->
         handleLitigationAPI JSON_parse file params
         = {| statusCode := 200; body := LitigationBody 0 [] (metadata db) |})
        /\ (forall query,
              params_get "q" params = Some query -> query <> ""%string ->
              searchEntries query (litigationEntries db) = [] ->
              handleSearchAPI JSON_parse file params
              = {| statusCode := 200; body := SearchBody query 0 [] |})).
Proof.
  split; [|split].
  - intros Hfail. apply loadFails_Falsy in Hfail.
    unfold handleLitigationAPI, handleSearchAPI, handleStatsAPI. rewrite Hfail.
    repeat split; try reflexivity. intros [Hcode _]. discriminate.
  - intros handler Hin Hcode.
    destruct (loadDatabase JSON_parse file) as [|db] eqn:Hload.
    + exfalso. revert Hcode.
      destruct Hin as [<-|[<-|[<-|[]]]];
        unfold handleLitigationAPI, handleSearchAPI, handleStatsAPI;
        rewrite Hload; discriminate.
    + apply loadDatabase_Document in Hload as [data [? ?]]. eauto.
  - intros db Hload. split.
    + intros Hnone. rewrite (handleLitigationAPI_loaded _ _ _ _ Hload).
      now rewrite Hnone.
    + intros query Hq Hne Hnone.
      rewrite (handleSearchAPI_loaded _ _ _ _ _ Hload Hq Hne). now rewrite Hnone.
Qed.

Lemma load_failure_is_reported_sample :
  handleSearchAPI sampleParse (Returned "{truncated") [("q", "alpha")]
  = databaseNotAvailable
  /\ handleSearchAPI sampleParse sampleFile [("q", "zebra")]
     = {| statusCode := 200; body := SearchBody "zebra" 0 [] |}.
Proof.
  destruct (load_failure_is_reported sampleParse (Returned "{truncated") [("q", "alpha")])
    as (Hfail & _ & _).
  destruct (load_failure_is_reported sampleParse sampleFile [("q", "zebra")])
    as (_ & _ & Hempty).
  split.
  - apply Hfail. right. exists "{truncated"%string. split; reflexivity.
  - apply (Hempty sampleDatabase); [reflexivity| reflexivity | discriminate | reflexivity].
Defined.

(** ** Accumulators of the statistics reducers *)

Section Accumulators.

Implicit Types acc m : gmap string StoredValue.

Lemma addValue_comm v1 v2 total :
  addValue v1 (addValue v2 total) = addValue v2 (addValue v1 total).
Proof.
  destruct v1 as [n1|], v2 as [n2|], total as [t|]; simpl; try reflexivity.
  f_equal. lia.
Qed.

Lemma sumValues_empty : sumValues ∅ = Some 0.
Proof. apply map_fold_empty. Qed.

Lemma sumValues_insert m key v :
  m !! key = None -> sumValues (<[key := v]> m) = addValue v (sumValues m).
Proof.
  intros Hfresh. unfold sumValues.
  apply (map_fold_insert_L (fun _ => addValue)); [|exact Hfresh].
  intros. apply addValue_comm.
Qed.

Lemma sumValues_delete m key v :
  m !! key = Some v -> sumValues m = addValue v (sumValues (delete key m)).
Proof.
  intros Hkey. unfold sumValues.
  apply (map_fold_delete_L (fun _ => addValue)); [|exact Hkey].
  intros. apply addValue_comm.
Qed.

(** An accumulator with a numeric sum holds numbers only. *)
Lemma sumValues_numbers m total key v :
  sumValues m = Some total -> m !! key = Some v -> exists n, v = Num n.
Proof.
  intros Hsum Hkey. rewrite (sumValues_delete m key v Hkey) in Hsum.
  destruct v as [n|]; [eauto | discriminate].
Qed.

Lemma countOf_insert m key k v :
  countOf (<[key := v]> m) k
  = if decide (key = k) then match v with Num n => n | Text => 0 end
    else countOf m k.
Proof.
  unfold countOf. rewrite lookup_insert. now destruct (decide (key = k)).
Qed.

(** Counting one more record under a key that is not inherited from
    [Object.prototype]: the sum grows by one, the count under that key grows
    by one, and no other key changes. *)
Lemma bump_plain acc key total :
  inherited key = false ->
  sumValues acc = Some total ->
  sumValues (bump acc key) = Some (total + 1)
  /\ forall k, countOf (bump acc key) k
               = countOf acc k + (if decide (key = k) then 1 else 0).
Proof.
  intros Hplain Hsum. unfold bump.
  destruct (acc !! key) as [v|] eqn:Hkey.
  - destruct (sumValues_numbers acc total key v Hsum Hkey) as [n ->]. split.
    + rewrite (sumValues_delete acc key (Num n) Hkey) in Hsum.
      rewrite <- insert_delete_eq, sumValues_insert by apply lookup_delete_eq.
      destruct (sumValues (delete key acc)) as [t|]; [|discriminate].
      simpl in *. injection Hsum as <-. f_equal. lia.
    + intros k. rewrite countOf_insert. destruct (decide (key = k)) as [<-|].
      * unfold countOf. now rewrite Hkey.
      * lia.
  - rewrite Hplain. split.
    + rewrite sumValues_insert, Hsum by exact Hkey. simpl. f_equal. lia.
    + intros k. rewrite countOf_insert. destruct (decide (key = k)) as [<-|].
      * unfold countOf. now rewrite Hkey.
      * lia.
Qed.

Lemma bump_keys acc key k :
  is_Some (bump acc key !! k) -> k = key \/ is_Some (acc !! k).
Proof.
  unfold bump. intros Hsome. destruct (decide (k = key)) as [->|Hne]; [now left|right].
  revert Hsome. destruct (acc !! key) as [[n|]|];
    [| |destruct (inherited key); [destruct (String.eqb key "__proto__")|]];
    rewrite ?lookup_insert_ne by congruence; trivial.
Qed.

Lemma tally_snoc keyOf key entries e :
  tally keyOf key (entries ++ [e])
  = tally keyOf key entries + (if decide (keyOf e = key) then 1 else 0).
Proof.
  unfold tally. rewrite List.filter_app, length_app. simpl.
  destruct (String.eqb_spec (keyOf e) key), (decide (keyOf e = key));
    simpl; congruence || lia.
Qed.

(** A reducer that counts the records of a collection by a key none of
    whose values is an inherited member name. *)
Lemma count_by_plain_key (keyOf : Entry -> string) (entries : list Entry) :
  (forall e, In e entries -> inherited (keyOf e) = false) ->
  let counts := List.fold_left (fun acc e => bump acc (keyOf e)) entries ∅ in
  sumValues counts = Some (length entries)
  /\ (forall key, countOf counts key = tally keyOf key entries)
  /\ (forall key, is_Some (counts !! key) -> exists e, In e entries /\ keyOf e = key).
Proof.
  induction entries as [|e entries IH] using rev_ind; intros Hplain counts.
  - subst counts. simpl. split; [apply sumValues_empty|]. split.
    + intros key. unfold countOf. now rewrite lookup_empty.
    + intros key [v Hv]. now rewrite lookup_empty in Hv.
  - subst counts. rewrite fold_left_app. simpl.
    destruct IH as (Hsum & Hcount & Hkeys).
    { intros x Hx. apply Hplain, in_or_app. now left. }
    assert (He : inherited (keyOf e) = false).
    { apply Hplain, in_or_app. right. now left. }
    destruct (bump_plain _ (keyOf e) _ He Hsum) as [Hsum' Hcount'].
    split; [|split].
    + rewrite Hsum', length_app. simpl. reflexivity.
    + intros key. now rewrite Hcount', Hcount, tally_snoc.
    + intros key Hkey. apply bump_keys in Hkey as [->|Hkey].
      * exists e. split; [apply in_or_app; right; now left | reflexivity].
      * destruct (Hkeys key Hkey) as [x [Hx Hk]]. exists x.
        split; [apply in_or_app; now left | exact Hk].
Qed.

End Accumulators.

(** ** Status buckets *)

Lemma includes_phrase status phrase :
  Js.toLowerCase phrase = phrase ->
  Js.includes (Js.toLowerCase status) phrase = true <-> mentions status phrase.
Proof.
  intros Hlower. unfold mentions, containsIgnoringCase. rewrite Hlower.
  apply includes_spec.
Qed.

Lemma includes_either status phrase1 phrase2 :
  Js.toLowerCase phrase1 = phrase1 -> Js.toLowerCase phrase2 = phrase2 ->
  Js.includes (Js.toLowerCase status) phrase1
  || Js.includes (Js.toLowerCase status) phrase2 = true
  <-> mentions status phrase1 \/ mentions status phrase2.
Proof. intros H1 H2. now rewrite orb_true_iff, !includes_phrase. Qed.

(** Closes [~ P] from [H : false = true <-> P]. *)
Ltac refute H := let HP := fresh in intros HP; apply H in HP; discriminate.

Lemma statusCategory_bucket e : statusBucket (currentStatus e) (statusCategory e).
Proof.
  unfold statusCategory.
  pose proof (includes_either (currentStatus e) "injunction granted"
                "judgment for plaintiffs" eq_refl eq_refl) as H1.
  pose proof (includes_either (currentStatus e) "active" "pending"
                eq_refl eq_refl) as H2.
  pose proof (includes_either (currentStatus e) "dismissed" "withdrew"
                eq_refl eq_refl) as H3.
  pose proof (includes_either (currentStatus e) "review" "watch"
                eq_refl eq_refl) as H4.
  cbv zeta.
  destruct (_ || _); [apply bucket_protective, H1; reflexivity|].
  destruct (_ || _);
    [apply bucket_active; [refute H1 | apply H2; reflexivity]|].
  destruct (_ || _);
    [apply bucket_dismissed; [refute H1 | refute H2 | apply H3; reflexivity]|].
  destruct (_ || _);
    [apply bucket_review;
       [refute H1 | refute H2 | refute H3 | apply H4; reflexivity]|].
  apply bucket_other; [refute H1 | refute H2 | refute H3 | refute H4].
Qed.

Lemma statusBucket_unique status c1 c2 :
  statusBucket status c1 -> statusBucket status c2 -> c1 = c2.
Proof. intros H1 H2. destruct H1; destruct H2; try reflexivity; contradiction. Qed.

Lemma statusCategory_listed e : In (statusCategory e) STATUS_CATEGORIES.
Proof.
  unfold statusCategory. cbv zeta.
  repeat match goal with |- context [if ?b then _ else _] => destruct b end;
    simpl; tauto.
Qed.

Lemma STATUS_CATEGORIES_plain key :
  In key STATUS_CATEGORIES -> inherited key = false.
Proof. intros [<-|[<-|[<-|[<-|[<-|[]]]]]]; reflexivity. Qed.

Lemma CLASSIFICATIONS_plain key :
  In key CLASSIFICATIONS -> inherited key = false.
Proof. intros [<-|[<-|[<-|[<-|[]]]]]; reflexivity. Qed.

Lemma countByStatus_facts entries :
  sumValues (countByStatus entries) = Some (length entries)
  /\ (forall key, countOf (countByStatus entries) key
                  = tally statusCategory key entries)
  /\ (forall key, is_Some (countByStatus entries !! key) ->
                  exists e, In e entries /\ statusCategory e = key).
Proof.
  apply (count_by_plain_key statusCategory entries).
  intros e _. apply STATUS_CATEGORIES_plain, statusCategory_listed.
Qed.

(** C3. Status bucket precedence: the bucket the aggregator counts a record
    under is the one the ordered checks select (protective phrases first,
    then active/pending, then dismissed/withdrew, then review/watch, else
    Other), it is the only one, adding the record raises the count of that
    bucket by one and of no other, and a status "active, under review" is
    counted under "Active Litigation". *)
Theorem status_bucket_precedence (entries : list Entry) (e : Entry) :
  statusBucket (currentStatus e) (statusCategory e)
  /\ (forall category,
        statusBucket (currentStatus e) category -> category = statusCategory e)
  /\ (forall key,
        countOf (countByStatus (entries ++ [e])) key
        = countOf (countByStatus entries) key
          + (if decide (statusCategory e = key) then 1 else 0))
  /\ (currentStatus e = "active, under review"%string ->
      statusCategory e = "Active Litigation"%string
      /\ statusCategory e <> "Under Review"%string).
Proof.
  split; [apply statusCategory_bucket|]. split; [|split].
  - intros category H. apply (statusBucket_unique (currentStatus e)); [exact H|].
    apply statusCategory_bucket.
  - intros key.
    destruct (countByStatus_facts (entries ++ [e])) as (_ & -> & _).
    destruct (countByStatus_facts entries) as (_ & -> & _).
    apply tally_snoc.
  - intros Hstatus. unfold statusCategory. rewrite Hstatus.
    split; [reflexivity | discriminate].
Qed.

Lemma status_bucket_precedence_sample :
  statusCategory entryC = "Active Litigation"%string
  /\ countOf (countByStatus ([entryA; entryB] ++ [entryC])) "Active Litigation" = 2
  /\ countOf (countByStatus ([entryA; entryB] ++ [entryC])) "Under Review" = 0.
Proof.
  destruct (status_bucket_precedence [entryA; entryB] entryC) as (_ & _ & Hstep & Hex).
  split; [apply Hex; reflexivity|].
  split; rewrite Hstep; reflexivity.
Defined.

(** C10. The status buckets partition the collection: the counts of
    [byStatus] add up to [totalEntries], each bucket holds the number of
    records whose status falls in it, and only the five buckets occur. *)
Theorem status_buckets_partition (entries : list Entry) :
  sumValues (countByStatus entries) = Some (length entries)
  /\ (forall key, countOf (countByStatus entries) key
                  = tally statusCategory key entries)
  /\ (forall key, is_Some (countByStatus entries !! key) ->
                  In key STATUS_CATEGORIES)
  /\ (forall JSON_parse file params meta,
        loadDatabase JSON_parse file
        = Document {| metadata := meta; litigationEntries := entries |} ->
        exists byClassification byAgency byCommunity,
          handleStatsAPI JSON_parse file params
          = {| statusCode := 200;
               body := StatsBody (length entries) byClassification byAgency
                         byCommunity (countByStatus entries) (lastUpdated meta) |}).
Proof.
  destruct (countByStatus_facts entries) as (Hsum & Hcount & Hkeys).
  split; [exact Hsum|]. split; [exact Hcount|]. split.
  - intros key Hkey. destruct (Hkeys key Hkey) as [e [_ <-]].
    apply statusCategory_listed.
  - intros JSON_parse file params meta Hload. unfold handleStatsAPI.
    rewrite Hload. eauto.
Qed.

Lemma status_buckets_partition_sample :
  sumValues (countByStatus [entryA; entryB; entryC]) = Some 3
  /\ countByStatus [entryA; entryB; entryC]
     = {[ "Active Litigation" := Num 2; "Dismissed/Withdrawn" := Num 1 ]}.
Proof.
  split; [apply (status_buckets_partition [entryA; entryB; entryC])|].
  apply map_eq. intros key. 
  vm_compute (countByStatus _). reflexivity.
Defined.

(** ** Classification totals *)

Lemma handleStatsAPI_empty JSON_parse file params meta :
  loadDatabase JSON_parse file
  = Document {| metadata := meta; litigationEntries := [] |} ->
  handleStatsAPI JSON_parse file params
  = {| statusCode := 200;
       body := StatsBody 0 ∅ ∅ ∅ ∅ (lastUpdated meta) |}.
Proof. intros H. unfold handleStatsAPI. now rewrite H. Qed.

(** C4. Aggregation totals: in a collection whose records each carry a
    classification value (any of CRITICAL, MODERATE, PROTECTIVE, WATCH, or
    any other string that does not name a member an object inherits), the
    counts of [byClassification] add up to the number of records, each value
    being counted once per record holding it; and on the empty collection the
    four mappings are empty and the answer is a success. *)
Theorem classification_totals (entries : list Entry)
    (Hvalues : forall e, In e entries -> inherited (classification e) = false) :
  sumValues (countByClassification entries) = Some (length entries)
  /\ (forall key, countOf (countByClassification entries) key
                  = tally classification key entries)
  /\ (countByClassification [] = ∅ /\ countByAgency [] = ∅
      /\ countByCommunity [] = ∅ /\ countByStatus [] = ∅)
  /\ (forall JSON_parse file params meta,
        loadDatabase JSON_parse file
        = Document {| metadata := meta; litigationEntries := [] |} ->
        handleStatsAPI JSON_parse file params
        = {| statusCode := 200;
             body := StatsBody 0 ∅ ∅ ∅ ∅ (lastUpdated meta) |}).
Proof.
  destruct (count_by_plain_key classification entries Hvalues) as (Hsum & Hcount & _).
  split; [exact Hsum|]. split; [exact Hcount|]. split.
  - repeat split.
  - apply handleStatsAPI_empty.
Qed.

Lemma classification_totals_sample :
  sumValues (countByClassification [entryA; entryB; entryC]) = Some 3
  /\ countOf (countByClassification [entryA; entryB; entryC]) "CRITICAL" = 1.
Proof.
  assert (Hvalues : forall e, In e [entryA; entryB; entryC] ->
                              inherited (classification e) = false).
  { intros e [<-|[<-|[<-|[]]]]; reflexivity. }
  destruct (classification_totals [entryA; entryB; entryC] Hvalues)
    as (Hsum & Hcount & _).
  split; [exact Hsum | rewrite Hcount; reflexivity].
Defined.

(** The classification values of the data model are not inherited member
    names, so a collection that uses only them is counted in full. *)
Lemma enumerated_classifications_are_counted entries :
  (forall e, In e entries -> In (classification e) CLASSIFICATIONS) ->
  forall e, In e entries -> inherited (classification e) = false.
Proof. intros H e He. apply CLASSIFICATIONS_plain, H, He. Qed.

(** A key that names an inherited member is not counted: the stored value is
    a text, not a number. *)
Example inherited_key_not_counted :
  bump ∅ "constructor" = {[ "constructor" := Text ]}
  /\ bump ∅ "__proto__" = ∅
  /\ sumValues (bump ∅ "constructor") = None.
Proof. repeat split. Qed.

(** ** Relevance ranking *)

Section RelevanceFacts.

Import Relevance.

Variable rank : Entry -> nat.

Lemma place_In e x ranked : In x (place rank e ranked) <-> x = e \/ In x ranked.
Proof.
  induction ranked as [|r rest IH]; simpl.
  - intuition.
  - destruct (rank r <=? rank e)%nat; simpl; [intuition|]. rewrite IH. intuition.
Qed.

Lemma sortByScore_In x records : In x (sortByScore rank records) <-> In x records.
Proof.
  induction records as [|e records IH]; simpl; [tauto|].
  rewrite place_In, IH. intuition.
Qed.

Lemma place_sorted e ranked :
  StronglySorted (outranks rank) ranked -> StronglySorted (outranks rank) (place rank e ranked).
Proof.
  induction ranked as [|r rest IH]; intros Hsorted; simpl.
  - repeat constructor.
  - apply StronglySorted_inv in Hsorted as [Hrest Hr].
    destruct (rank r <=? rank e)%nat eqn:Hcmp.
    + apply Nat.leb_le in Hcmp. constructor.
      * now constructor.
      * constructor; [exact Hcmp|].
        rewrite List.Forall_forall in Hr |- *. intros x Hx.
        unfold outranks in *. specialize (Hr x Hx). lia.
    + apply Nat.leb_gt in Hcmp. constructor; [now apply IH|].
      rewrite List.Forall_forall in Hr |- *. intros x Hx.
      apply place_In in Hx as [->|Hx]; [unfold outranks; lia | now apply Hr].
Qed.

Lemma sortByScore_sorted records :
  StronglySorted (outranks rank) (sortByScore rank records).
Proof.
  induction records as [|e records IH]; simpl; [constructor|].
  now apply place_sorted.
Qed.

(** Records of equal score keep their relative order. *)
Lemma place_ties s e ranked :
  List.filter (fun x => rank x =? s)%nat (place rank e ranked)
  = List.filter (fun x => rank x =? s)%nat (e :: ranked).
Proof.
  induction ranked as [|r rest IH]; [reflexivity|]. simpl place.
  destruct (rank r <=? rank e)%nat eqn:Hcmp; [reflexivity|].
  apply Nat.leb_gt in Hcmp. simpl in *. rewrite IH.
  destruct (rank r =? s)%nat eqn:Hr, (rank e =? s)%nat eqn:He; try reflexivity.
  apply Nat.eqb_eq in Hr, He. lia.
Qed.

Lemma sortByScore_ties s records :
  List.filter (fun x => rank x =? s)%nat (sortByScore rank records)
  = List.filter (fun x => rank x =? s)%nat records.
Proof.
  induction records as [|e records IH]; [reflexivity|]. simpl sortByScore.
  rewrite place_ties. simpl. now rewrite IH.
Qed.

Lemma sorted_prefix {A} (R : A -> A -> Prop) limit (l : list A) :
  StronglySorted R l -> StronglySorted R (List.firstn limit l).
Proof.
  intros H. rewrite <- (firstn_skipn limit l) in H.
  now apply StronglySorted_app_1_l in H.
Qed.

Lemma sorted_before (front back : list Entry) x y :
  StronglySorted (outranks rank) (front ++ y :: back) ->
  In x (front ++ y :: back) -> rank y < rank x -> In x front.
Proof.
  intros Hsorted Hin Hlt. apply in_app_or in Hin as [Hin|Hin]; [exact Hin|].
  exfalso. apply StronglySorted_app_1_r in Hsorted.
  apply StronglySorted_inv in Hsorted as [_ Hy].
  destruct Hin as [->|Hin]; [lia|].
  rewrite List.Forall_forall in Hy. specialize (Hy x Hin). unfold outranks in Hy. lia.
Qed.

End RelevanceFacts.

Section ScoreFacts.

Import Relevance.

Variable w : Weights.

Lemma hit_found field term : containsIgnoringCase field term -> hit field term = 1.
Proof.
  intros H. apply lower_includes_ignoring_case in H. unfold hit. now rewrite H.
Qed.

Lemma hit_missing field term : ~ containsIgnoringCase field term -> hit field term = 0.
Proof.
  intros H. unfold hit.
  destruct (Js.includes _ _) eqn:E; [|reflexivity].
  now apply lower_includes_ignoring_case in E.
Qed.

Lemma hits_missing fields term :
  (forall field, In field fields -> ~ containsIgnoringCase field term) ->
  hits fields term = 0.
Proof.
  unfold hits. induction fields as [|f fields IH]; intros H; [reflexivity|].
  simpl. rewrite hit_missing by (apply H; now left).
  apply IH. intros field Hf. apply H. now right.
Qed.

Lemma termScore_in_title e term :
  inTitle term e -> primaryWeight w <= termScore w e term.
Proof. intros H. unfold termScore. rewrite (hit_found _ _ H). lia. Qed.

Lemma termScore_in_narrative_only e term :
  inNarrativeOnly term e -> termScore w e term = secondaryWeight w.
Proof.
  intros (Hnarrative & Htitle & Hsummary & Hagencies & Hlabels).
  unfold termScore. rewrite (hit_missing _ _ Htitle).
  unfold hits at 1. simpl List.map. simpl list_sum.
  rewrite (hit_found _ _ Hnarrative).
  fold (hits (affectedCommunities (culturalImpactAnalysis e)) term).
  rewrite (hits_missing _ _ Hlabels).
  rewrite hits_missing; [lia|].
  intros field [<-|Hfield]; [exact Hsummary|].
  apply in_map_iff in Hfield as [a [<- Ha]]. now apply Hagencies.
Qed.

Lemma list_sum_at_least {A} (f : A -> nat) (c : nat) (l : list A) :
  (forall x, In x l -> c <= f x) -> length l * c <= list_sum (List.map f l).
Proof.
  induction l as [|x l IH]; intros H; simpl; [lia|].
  specialize (H x (or_introl eq_refl)) as Hx.
  assert (length l * c <= list_sum (List.map f l)); [|lia].
  apply IH. intros y Hy. apply H. now right.
Qed.

Lemma list_sum_exactly {A} (f : A -> nat) (c : nat) (l : list A) :
  (forall x, In x l -> f x = c) -> list_sum (List.map f l) = length l * c.
Proof.
  induction l as [|x l IH]; intros H; simpl; [reflexivity|].
  rewrite (H x) by now left. rewrite IH; [lia|].
  intros y Hy. apply H. now right.
Qed.

Lemma occursIn_app_l needle hay rest :
  occursIn needle hay -> occursIn needle (hay ++ rest).
Proof.
  intros [front [back ->]]. exists front, (back ++ rest)%string.
  now rewrite !string_app_assoc.
Qed.

Lemma join_space_head part parts :
  exists rest, Js.join_space (part :: parts) = (part ++ rest)%string.
Proof.
  destruct parts as [|p parts].
  - exists ""%string. simpl. now rewrite string_app_nil_r.
  - eexists. reflexivity.
Qed.

Lemma matchesAll_in_title terms e :
  (forall term, In term terms -> inTitle term e) -> matchesAll terms e = true.
Proof.
  intros H. unfold matchesAll. apply forallb_forall. intros term Hterm.
  apply includes_spec. unfold searchableText, searchableFields.
  destruct (join_space_head (caseName e)
              ([summary (claimsAndLegalBasis e);
                narrativeAssessment (culturalImpactAnalysis e)]
               ++ List.map agency (agenciesInvolved e)
               ++ affectedCommunities (culturalImpactAnalysis e)))
    as [rest Hjoin].
  simpl app. simpl app in Hjoin. rewrite Hjoin.
  unfold Js.toLowerCase. rewrite mapChars_app. apply occursIn_app_l.
  apply (H term Hterm).
Qed.

(** In the ranking scenario the record with the term in its title scores
    strictly higher. *)
Lemma title_beats_narrative terms x y :
  secondaryWeight w < primaryWeight w ->
  terms <> [] ->
  (forall term, In term terms -> inTitle term x /\ inNarrativeOnly term y) ->
  score w terms y < score w terms x.
Proof.
  intros Hweights Hterms Hscenario. unfold score.
  rewrite (list_sum_exactly (termScore w y) (secondaryWeight w)).
  2:{ intros term Hterm. now apply termScore_in_narrative_only, Hscenario. }
  pose proof (list_sum_at_least (termScore w x) (primaryWeight w) terms) as Hx.
  destruct terms as [|t terms]; [congruence|]. simpl length in *.
  assert (S (length terms) * secondaryWeight w < S (length terms) * primaryWeight w)
    by (apply Nat.mul_lt_mono_pos_l; lia).
  assert (S (length terms) * primaryWeight w
          <= list_sum (List.map (termScore w x) (t :: terms))); [|lia].
  apply Hx. intros term Hterm. now apply termScore_in_title, Hscenario.
Qed.

End ScoreFacts.

Lemma filter_prefix_sublist {A} (f : A -> bool) limit (l : list A) :
  sublist (List.filter f (List.firstn limit l)) (List.filter f l).
Proof.
  rewrite <- (firstn_skipn limit l) at 2. rewrite List.filter_app.
  now apply sublist_inserts_r.
Qed.

(** C9. Ranking of [searchWithRelevance], for weights that put the title
    above the secondary fields: the results are in descending order of
    score; records of equal score appear in the order of the collection; and
    when every term of a (non-empty) query is found in the title of a record
    [x] of the collection and, in a record [y], in the narrative only,
    wherever [y] appears in the results [x] appears before it. *)
Theorem relevance_ranking (w : Relevance.Weights) (records : list Entry)
    (query : string) (options : Relevance.Options)
    (Hweights : Relevance.secondaryWeight w < Relevance.primaryWeight w) :
  let terms := Relevance.tokens query in
  let results := Relevance.searchWithRelevance w records query options in
  StronglySorted (Relevance.outranks (Relevance.score w terms)) results
  /\ (forall s,
        sublist
          (List.filter (fun e => Relevance.score w terms e =? s)%nat results)
          records)
  /\ (forall x y,
        In x records -> terms <> [] ->
        (forall term, In term terms -> inTitle term x /\ inNarrativeOnly term y) ->
        forall front back, results = front ++ y :: back -> In x front).
Proof.
  intros terms results.
  set (matching := List.filter (Relevance.matchesAll terms) records).
  set (eligible :=
         List.filter
           (fun e => (Relevance.minScore options <=? Relevance.score w terms e)%nat)
           matching).
  set (ranked := Relevance.sortByScore (Relevance.score w terms) eligible).
  assert (Hresults : exists rest, ranked = results ++ rest).
  { subst results. unfold Relevance.searchWithRelevance.
    fold terms. fold matching. fold eligible. fold ranked.
    destruct (Relevance.maxResults options) as [limit|].
    - exists (List.skipn limit ranked). now rewrite firstn_skipn.
    - exists []. now rewrite app_nil_r. }
  destruct Hresults as [rest Hranked].
  assert (Hsorted : StronglySorted (Relevance.outranks (Relevance.score w terms)) ranked)
    by apply sortByScore_sorted.
  assert (Hmembers : forall e, In e ranked <-> In e eligible)
    by (intros e; apply sortByScore_In).
  assert (Hties : forall s,
             List.filter (fun e => Relevance.score w terms e =? s)%nat ranked
             = List.filter (fun e => Relevance.score w terms e =? s)%nat eligible)
    by (intros s; apply sortByScore_ties).
  clearbody ranked results. subst ranked.
  split; [|split].
  - now apply StronglySorted_app_1_l in Hsorted.
  - intros s.
    transitivity (List.filter (fun e => Relevance.score w terms e =? s)%nat eligible).
    { rewrite <- Hties, List.filter_app. now apply sublist_inserts_r. }
    transitivity eligible; [apply filter_is_sublist|].
    transitivity matching; apply filter_is_sublist.
  - intros x y Hx Hterms Hscenario front back ->.
    pose proof (title_beats_narrative w terms x y Hweights Hterms Hscenario) as Hlt.
    assert (Hy : In y eligible).
    { apply Hmembers. rewrite <- !app_assoc. apply in_or_app. right. now left. }
    apply filter_In in Hy as [_ Hmin]. apply Nat.leb_le in Hmin.
    assert (Hx' : In x ((front ++ y :: back) ++ rest)).
    { apply Hmembers, filter_In. split.
      - apply filter_In. split; [exact Hx|].
        apply matchesAll_in_title. intros term Hterm. now apply Hscenario.
      - apply Nat.leb_le. lia. }
    rewrite <- app_assoc in Hx', Hsorted. simpl in Hx', Hsorted.
    now apply (sorted_before (Relevance.score w terms) front (back ++ rest) x y).
Qed.

Lemma relevance_ranking_sample :
  Relevance.searchWithRelevance sampleWeights [entryC; entryD] "Indigenous"
    {| Relevance.minScore := 2; Relevance.maxResults := Some 20 |}
  = [entryD; entryC]
  /\ In entryD [entryD].
Proof.
  split; [reflexivity|].
  assert (Hweights : Relevance.secondaryWeight sampleWeights
                     < Relevance.primaryWeight sampleWeights) by (simpl; lia).
  destruct (relevance_ranking sampleWeights [entryC; entryD] "Indigenous"
              {| Relevance.minScore := 2; Relevance.maxResults := Some 20 |}
              Hweights) as (_ & _ & Habove).
  apply (Habove entryD entryC) with (back := []).
  - right. now left.
  - discriminate.
  - intros term [<-|[]]. split.
    + apply lower_includes_ignoring_case. reflexivity.
    + repeat split.
      * apply lower_includes_ignoring_case. reflexivity.
      * intros H. apply lower_includes_ignoring_case in H. discriminate.
      * intros H. apply lower_includes_ignoring_case in H. discriminate.
      * intros a [].
      * intros label [].
  - reflexivity.
Defined.

(** ** Dispatch *)

(** The search and statistics paths start with "/api/litigation", which is
    listed first: the request listener hands them to [handleLitigationAPI]. *)
Example dispatch_paths :
  dispatch "/api/litigation" = Some HandleLitigationAPI
  /\ dispatch "/api/litigation/search" = Some HandleLitigationAPI
  /\ dispatch "/api/litigation/stats" = Some HandleLitigationAPI
  /\ dispatch "/api/agencies" = Some HandleAgenciesAPI
  /\ dispatch "/index.html" = None.
Proof. repeat split. Qed.

(** * Beyond the claims: the rest of [server.js] and [public/app.js] *)

(** ** Routing *)

Lemma startsWith_app s t u :
  Js.startsWith s (t ++ u) = true -> Js.startsWith s t = true.
Proof.
  rewrite !startsWith_spec. intros [post ->]. exists (u ++ post)%string.
  apply string_app_assoc.
Qed.

Lemma startsWith_app_false s t u :
  Js.startsWith s t = false -> Js.startsWith s (t ++ u) = false.
Proof.
  intros H. apply not_true_is_false. intros Hu.
  apply startsWith_app in Hu. congruence.
Qed.

Lemma dispatch_cases pathname :
  dispatch pathname =
  if Js.startsWith pathname "/api/litigation" then Some HandleLitigationAPI
  else if Js.startsWith pathname "/api/agencies" then Some HandleAgenciesAPI
  else None.
Proof.
  unfold dispatch, API_ROUTES. cbn [List.find fst snd].
  destruct (Js.startsWith pathname "/api/litigation") eqn:E; [reflexivity|].
  assert (Hsearch : Js.startsWith pathname "/api/litigation/search" = false)
    by exact (startsWith_app_false pathname "/api/litigation" "/search" E).
  assert (Hstats : Js.startsWith pathname "/api/litigation/stats" = false)
    by exact (startsWith_app_false pathname "/api/litigation" "/stats" E).
  rewrite Hsearch, Hstats.
  now destruct (Js.startsWith pathname "/api/agencies").
Qed.

Lemma prefixes_exclusive pathname :
  Js.startsWith pathname "/api/litigation" = true ->
  Js.startsWith pathname "/api/agencies" = false.
Proof.
  intros H. apply startsWith_spec in H as [rest ->]. reflexivity.
Qed.

(** X1. Routes are matched by prefix, in the order of the table: a path is
    handed to the filter handler exactly when it starts with
    "/api/litigation", to the agencies handler exactly when it starts with
    "/api/agencies", and to the static files otherwise; the search and the
    statistics handlers are never chosen. *)
Theorem dispatch_by_prefix (pathname : string) :
  (dispatch pathname = Some HandleLitigationAPI
   <-> exists rest, pathname = ("/api/litigation" ++ rest)%string)
  /\ (dispatch pathname = Some HandleAgenciesAPI
      <-> exists rest, pathname = ("/api/agencies" ++ rest)%string)
  /\ (dispatch pathname = None
      <-> Js.startsWith pathname "/api/litigation" = false
          /\ Js.startsWith pathname "/api/agencies" = false)
  /\ dispatch pathname <> Some HandleSearchAPI
  /\ dispatch pathname <> Some HandleStatsAPI.
Proof.
  rewrite dispatch_cases, <- !startsWith_spec.
  destruct (Js.startsWith pathname "/api/litigation") eqn:E1.
  - rewrite (prefixes_exclusive pathname E1).
    repeat split; try discriminate; try tauto. intros [? ?]. discriminate.
  - destruct (Js.startsWith pathname "/api/agencies") eqn:E2;
      repeat split; try discriminate; try tauto. intros [? ?]. discriminate.
Qed.

Lemma listener_litigation JSON_parse file fs method pathname params :
  String.eqb method "OPTIONS" = false ->
  Js.startsWith pathname "/api/litigation" = true ->
  requestListener JSON_parse file fs method pathname params
  = Json (handleLitigationAPI JSON_parse file params).
Proof.
  intros Hm Hp. unfold requestListener. now rewrite Hm, dispatch_cases, Hp.
Qed.




(** ** Static files *)

(** X3. The root path is served as "/index.html"; a request that is not a
    preflight and whose path is "/" is answered with that file; and a reply
    of the static file server is either the file with status 200 or an HTML
    error page with status 404 or 500, whatever the extension asked for. *)
Theorem static_default_document (fs : FileSystem) :
  serveStaticFile fs "/" = serveStaticFile fs "/index.html"
  /\ (forall JSON_parse file method params,
        method <> "OPTIONS"%string ->
        requestListener JSON_parse file fs method "/" params
        = serveStaticFile fs "/index.html")
  /\ (forall pathname,
        exists code type content,
          serveStaticFile fs pathname = StaticFile code type content
          /\ (code = 200
              \/ (code = 404 \/ code = 500) /\ type = Mime "text/html")).
Proof.
  split; [reflexivity|]. split.
  - intros JSON_parse file method params Hm. unfold requestListener.
    apply String.eqb_neq in Hm. now rewrite Hm.
  - intros pathname. unfold serveStaticFile.
    destruct (readFile fs _); eexists _, _, _; (split; [reflexivity|]); tauto.
Qed.

Lemma static_default_document_sample :
  requestListener sampleParse Thrown
    {| path_join := fun p => ("public" ++ p)%string;
       path_extname := fun _ => ".html"%string;
       readFile := fun p => if String.eqb p "public/index.html"
                            then FileData "<html></html>" else NoEntry |}
    "GET" "/" []
  = StaticFile 200 (Mime "text/html") "<html></html>".
Proof.
  destruct (static_default_document
              {| path_join := fun p => ("public" ++ p)%string;
                 path_extname := fun _ => ".html"%string;
                 readFile := fun p => if String.eqb p "public/index.html"
                                      then FileData "<html></html>" else NoEntry |})
    as (_ & H & _).
  rewrite H; [reflexivity | discriminate].
Defined.

Lemma contentTypeFor_listed ext key type :
  In (key, type) MIME_TYPES -> equalIgnoringCase ext key ->
  contentTypeFor (Js.toLowerCase ext) = Mime type.
Proof.
  unfold equalIgnoringCase. intros Hin ->.
  repeat (destruct Hin as [[= <- <-]|Hin]; [reflexivity|]). destruct Hin.
Qed.

(** X4. The content type of a served file follows its extension up to
    letter case: a file whose extension equals a key of [MIME_TYPES] up to
    case is sent with that key's type, and a file without extension is sent
    as "application/octet-stream". *)
Theorem content_type_by_extension (fs : FileSystem) (pathname data : string)
    (Hpath : pathname <> "/"%string)
    (Hread : readFile fs (path_join fs pathname) = FileData data) :
  (forall key type,
     In (key, type) MIME_TYPES ->
     equalIgnoringCase (path_extname fs (path_join fs pathname)) key ->
     serveStaticFile fs pathname = StaticFile 200 (Mime type) data)
  /\ (path_extname fs (path_join fs pathname) = ""%string ->
      serveStaticFile fs pathname
      = StaticFile 200 (Mime "application/octet-stream") data).
Proof.
  unfold serveStaticFile. apply String.eqb_neq in Hpath. rewrite Hpath, Hread.
  split.
  - intros key type Hin Heq. now rewrite (contentTypeFor_listed _ key type Hin Heq).
  - intros ->. reflexivity.
Qed.

Lemma content_type_by_extension_sample :
  serveStaticFile
    {| path_join := fun p => ("public" ++ p)%string;
       path_extname := fun _ => ".SVG"%string;
       readFile := fun _ => FileData "<svg/>" |}
    "/LOGO.SVG"
  = StaticFile 200 (Mime "image/svg+xml") "<svg/>".
Proof.
  assert (Hpath : "/LOGO.SVG"%string <> "/"%string) by discriminate.
  destruct (content_type_by_extension
              {| path_join := fun p => ("public" ++ p)%string;
                 path_extname := fun _ => ".SVG"%string;
                 readFile := fun _ => FileData "<svg/>" |}
              "/LOGO.SVG" "<svg/>" Hpath eq_refl) as [H _].
  apply (H ".svg"%string "image/svg+xml"%string).
  - simpl. tauto.
  - reflexivity.
Defined.

(** ** Availability of the document *)

Lemma loadDatabase_Falsy JSON_parse file :
  loadDatabase JSON_parse file = Falsy <-> noDocument JSON_parse file.
Proof.
  unfold noDocument, loadFails, loadDatabase. destruct file as [data|].
  - destruct (JSON_parse data) as [[|db]|] eqn:Hparse.
    + split; [|reflexivity]. intros _. right. eauto.
    + split; [discriminate|].
      intros [[[=]|[d [[= <-] H]]]|[d [[= <-] H]]]; congruence.
    + split; [|reflexivity]. intros _. left. right. eauto.
  - split; [|reflexivity]. intros _. left. now left.
Qed.

(** X5. Each handler answers 500 "Database not available" exactly when no
    document is at hand: the file cannot be read, its contents do not parse,
    or they parse to a falsy value such as [null]. *)
Theorem unavailable_without_document
    (JSON_parse : string -> attempt JsonValue) (file : attempt string)
    (params : SearchParams) :
  (handleLitigationAPI JSON_parse file params = databaseNotAvailable
   <-> noDocument JSON_parse file)
  /\ (handleSearchAPI JSON_parse file params = databaseNotAvailable
      <-> noDocument JSON_parse file)
  /\ (handleStatsAPI JSON_parse file params = databaseNotAvailable
      <-> noDocument JSON_parse file)
  /\ (handleAgenciesAPI JSON_parse file = Json databaseNotAvailable
      <-> noDocument JSON_parse file).
Proof.
  rewrite <- loadDatabase_Falsy.
  unfold handleLitigationAPI, handleSearchAPI, handleStatsAPI, handleAgenciesAPI.
  destruct (loadDatabase JSON_parse file) as [|db].
  - repeat split; reflexivity.
  - repeat split; try discriminate.
    destruct (params_get "q" params) as [query|]; [destruct (Js.nonEmpty query)|];
      discriminate.
Qed.

(** ** Query parameters *)

Lemma params_get_app_found name value (front back : SearchParams) :
  params_get name front = Some value ->
  params_get name (front ++ back) = Some value.
Proof.
  unfold params_get. induction front as [|[k v] front IH]; simpl; [discriminate|].
  destruct (String.eqb k name); [trivial | exact IH].
Qed.

Lemma params_get_shadowed name key first later (front back : SearchParams) :
  params_get key front = Some first ->
  params_get name (front ++ (key, later) :: back) = params_get name (front ++ back).
Proof.
  intros Hfirst. destruct (String.eqb_spec name key) as [->|Hne].
  - now rewrite !(params_get_app_found key first).
  - now apply params_get_skip.
Qed.

Lemma handleSearchAPI_agree JSON_parse file params params' :
  params_get "q" params = params_get "q" params' ->
  handleSearchAPI JSON_parse file params = handleSearchAPI JSON_parse file params'.
Proof. intros H. unfold handleSearchAPI. now rewrite H. Qed.

Lemma handleLitigationAPI_agree JSON_parse file params params' :
  (forall name, In name FILTER_PARAMS ->
                params_get name params = params_get name params') ->
  handleLitigationAPI JSON_parse file params
  = handleLitigationAPI JSON_parse file params'.
Proof.
  intros H. unfold handleLitigationAPI.
  destruct (loadDatabase JSON_parse file); [reflexivity|].
  now rewrite (filterEntries_agree params params').
Qed.

(** X6. Only the first occurrence of a repeated parameter counts: once a
    name occurs in the query string, a later occurrence of it changes
    neither the filter's nor the search's answer, even when the first
    occurrence is empty. *)
Theorem first_occurrence_wins
    (JSON_parse : string -> attempt JsonValue) (file : attempt string)
    (front back : SearchParams) (name first later : string)
    (Hfirst : params_get name front = Some first) :
  handleLitigationAPI JSON_parse file (front ++ (name, later) :: back)
  = handleLitigationAPI JSON_parse file (front ++ back)
  /\ handleSearchAPI JSON_parse file (front ++ (name, later) :: back)
     = handleSearchAPI JSON_parse file (front ++ back).
Proof.
  split.
  - apply handleLitigationAPI_agree. intros other _.
    now apply (params_get_shadowed other name first).
  - apply handleSearchAPI_agree. now apply (params_get_shadowed "q" name first).
Qed.

Lemma first_occurrence_wins_sample :
  handleLitigationAPI sampleParse sampleFile [("agency", ""); ("agency", "EPA")]
  = {| statusCode := 200;
       body := LitigationBody 2 [entryA; entryB]
                 {| lastUpdated := "2025-06-01" |} |}.
Proof.
  destruct (first_occurrence_wins sampleParse sampleFile [("agency", "")] []
              "agency" "" "EPA" eq_refl) as [H _].
  simpl app in H. rewrite H. reflexivity.
Defined.

(** X7. Each handler reads its own parameters and nothing else: the filter
    handler answers alike two requests that agree on classification, agency,
    community, status and id, the search handler two requests that agree on
    q, and the statistics handler any two requests. *)
Theorem handlers_read_own_parameters
    (JSON_parse : string -> attempt JsonValue) (file : attempt string)
    (params params' : SearchParams) :
  ((forall name, In name FILTER_PARAMS ->
                 params_get name params = params_get name params') ->
   handleLitigationAPI JSON_parse file params
   = handleLitigationAPI JSON_parse file params')
  /\ (params_get "q" params = params_get "q" params' ->
      handleSearchAPI JSON_parse file params
      = handleSearchAPI JSON_parse file params')
  /\ handleStatsAPI JSON_parse file params
     = handleStatsAPI JSON_parse file params'.
Proof.
  split; [apply handleLitigationAPI_agree|].
  split; [apply handleSearchAPI_agree | reflexivity].
Qed.

(** ** Algebra of the filter *)

Lemma filter_idempotent {A} (f : A -> bool) (l : list A) :
  List.filter f (List.filter f l) = List.filter f l.
Proof.
  rewrite filter_twice. apply filter_ext. intros x. now destruct (f x).
Qed.

(** X8. Filters compose: filtering a filtered collection by other criteria
    gives the same records whichever filter is applied first, filtering twice
    by the same criteria changes nothing, and the filter of a concatenation
    is the concatenation of the filters. *)
Theorem filter_composition (params params' : SearchParams)
    (entries more : list Entry) :
  filterEntries params (filterEntries params' entries)
  = filterEntries params' (filterEntries params entries)
  /\ filterEntries params (filterEntries params entries)
     = filterEntries params entries
  /\ filterEntries params (entries ++ more)
     = filterEntries params entries ++ filterEntries params more.
Proof.
  rewrite !filterEntries_one_pass. split; [|split].
  - rewrite !filter_twice. apply filter_ext. intros e. apply andb_comm.
  - apply filter_idempotent.
  - apply List.filter_app.
Qed.

Lemma passes_ignoring_case v v' keep e :
  sameUpToCase v v' ->
  (forall c c', sameUpToAsciiCase c c' = true -> keep c e = keep c' e) ->
  passes v keep e = passes v' keep e.
Proof.
  intros Hv Hkeep. destruct v as [c|], v' as [c'|]; try contradiction;
    [|reflexivity].
  simpl in *. rewrite (sameUpToAsciiCase_nonEmpty c c' Hv).
  destruct (Js.nonEmpty c'); [now apply Hkeep | reflexivity].
Qed.

(** X9. The criteria classification, agency, community and status are read
    up to letter case: two requests whose values for them differ only in the
    case of ASCII letters, and whose id is the same, select the same
    records. *)
Theorem filter_criteria_ignore_case (params params' : SearchParams)
    (entries : list Entry)
    (Hcase : forall name, In name CASELESS_PARAMS ->
               sameUpToCase (params_get name params) (params_get name params'))
    (Hid : params_get "id" params = params_get "id" params') :
  filterEntries params entries = filterEntries params' entries.
Proof.
  rewrite !filterEntries_one_pass. apply filter_ext. intros e. unfold keeps.
  rewrite Hid.
  rewrite (passes_ignoring_case _ (params_get "classification" params') classificationIs e).
  rewrite (passes_ignoring_case _ (params_get "agency" params') agencyInvolved e).
  rewrite (passes_ignoring_case _ (params_get "community" params') communityAffected e).
  rewrite (passes_ignoring_case _ (params_get "status" params') statusIncludes e).
  - reflexivity.
  - apply Hcase. simpl. tauto.
  - intros c c' H. destruct (sameUpToAsciiCase_forms c c' H) as [_ Hlow].
    unfold statusIncludes. now rewrite Hlow.
  - apply Hcase. simpl. tauto.
  - intros c c' H. destruct (sameUpToAsciiCase_forms c c' H) as [_ Hlow].
    unfold communityAffected. now rewrite Hlow.
  - apply Hcase. simpl. tauto.
  - intros c c' H. destruct (sameUpToAsciiCase_forms c c' H) as [Hup _].
    unfold agencyInvolved, agencyRefMatches. now rewrite Hup.
  - apply Hcase. simpl. tauto.
  - intros c c' H. destruct (sameUpToAsciiCase_forms c c' H) as [Hup _].
    unfold classificationIs. now rewrite Hup.
Qed.

Lemma filter_criteria_ignore_case_sample :
  filterEntries [("agency", "epa"); ("status", "ACTIVE")] [entryA; entryB; entryC]
  = filterEntries [("status", "active"); ("agency", "EPA")] [entryA; entryB; entryC]
  /\ filterEntries [("agency", "epa"); ("status", "ACTIVE")] [entryA; entryB; entryC]
     = [entryA].
Proof.
  split; [|reflexivity].
  apply filter_criteria_ignore_case; [|reflexivity].
  intros name [<-|[<-|[<-|[<-|[]]]]]; vm_compute; tauto.
Defined.

(** X10. The stored classification is compared as it is: a record whose
    classification is not in upper case is selected by no request that
    provides a classification. *)
Theorem stored_classification_is_case_sensitive (params : SearchParams)
    (criterion : string) (entries : list Entry) (e : Entry)
    (Hprovided : provided params "classification" criterion)
    (Hstored : Js.toUpperCase (classification e) <> classification e) :
  ~ In e (filterEntries params entries).
Proof.
  intros Hin. apply in_filterEntries in Hin as [_ (Hclass & _)].
  apply Hstored. rewrite (Hclass criterion Hprovided). apply toUpperCase_idem.
Qed.

Lemma stored_classification_is_case_sensitive_sample :
  filterEntries [("classification", "critical")]
    [withClassification "Critical" entryA] = []
  /\ ~ In (withClassification "Critical" entryA)
       (filterEntries [("classification", "critical")]
          [withClassification "Critical" entryA]).
Proof.
  split; [reflexivity|].
  apply (stored_classification_is_case_sensitive
           [("classification", "critical")] "critical").
  - split; [reflexivity | discriminate].
  - discriminate.
Defined.

Lemma filter_unique_key {A} (key : A -> string) (value : string) (l : list A) :
  List.NoDup (List.map key l) ->
  length (List.filter (fun x => String.eqb (key x) value) l) <= 1.
Proof.
  induction l as [|x l IH]; intros Hnodup; simpl; [lia|].
  simpl in Hnodup. apply List.NoDup_cons_iff in Hnodup as [Hx Hl].
  destruct (String.eqb_spec (key x) value) as [Heq|Hne]; [|now apply IH].
  rewrite filter_none; [simpl; lia|].
  intros y Hy. apply String.eqb_neq. intros Hy'. apply Hx.
  rewrite Heq, <- Hy'. now apply in_map.
Qed.

Lemma filter_length_le {A} (f g : A -> bool) (l : list A) :
  (forall x, f x = true -> g x = true) ->
  length (List.filter f l) <= length (List.filter g l).
Proof.
  intros H. induction l as [|x l IH]; simpl; [lia|].
  destruct (f x) eqn:Hf; [rewrite (H x Hf); simpl; lia|].
  destruct (g x); simpl; lia.
Qed.

(** X11. In a collection whose identifiers are pairwise distinct, a request
    that provides an id selects at most one record, whatever its other
    criteria. *)
Theorem id_selects_at_most_one (params : SearchParams) (criterion : string)
    (entries : list Entry)
    (Hunique : List.NoDup (List.map id entries))
    (Hprovided : provided params "id" criterion) :
  length (filterEntries params entries) <= 1.
Proof.
  rewrite filterEntries_one_pass.
  etransitivity; [|apply (filter_unique_key id criterion entries Hunique)].
  apply filter_length_le. intros e He. apply keeps_meets in He.
  destruct He as (_ & _ & _ & _ & Hid). apply String.eqb_eq. now apply Hid.
Qed.

Lemma id_selects_at_most_one_sample :
  length (filterEntries [("id", "DOI-2024-007")] [entryA; entryB; entryC]) <= 1.
Proof.
  apply (id_selects_at_most_one [("id", "DOI-2024-007")] "DOI-2024-007").
  - repeat constructor; simpl; intuition discriminate.
  - split; [reflexivity | discriminate].
Defined.

(** ** Algebra of the search *)

Lemma searchTerms_app a b :
  searchTerms (a ++ String Js.space b) = searchTerms a ++ searchTerms b.
Proof.
  unfold searchTerms, Js.toLowerCase. rewrite mapChars_app.
  apply split_space_app.
Qed.

Lemma searchMatches_app a b e :
  searchMatches (a ++ String Js.space b) e = searchMatches a e && searchMatches b e.
Proof. unfold searchMatches. now rewrite searchTerms_app, forallb_app. Qed.

(** X12. Terms compose: searching for two queries joined by a space is
    searching the results of the first for the second, so another term only
    narrows the results and the order of the parts does not matter; and the
    letter case of the query does not matter. *)
Theorem search_terms_compose (q1 q2 : string) (entries : list Entry) :
  searchEntries (q1 ++ " " ++ q2) entries
  = searchEntries q2 (searchEntries q1 entries)
  /\ searchEntries (q1 ++ " " ++ q2) entries
     = searchEntries (q2 ++ " " ++ q1) entries
  /\ sublist (searchEntries (q1 ++ " " ++ q2) entries) (searchEntries q1 entries)
  /\ (forall q, equalIgnoringCase q1 q ->
                searchEntries q1 entries = searchEntries q entries).
Proof.
  change (" " ++ q2)%string with (String Js.space q2).
  change (" " ++ q1)%string with (String Js.space q1).
  assert (Hcompose : forall a b,
             searchEntries (a ++ String Js.space b) entries
             = searchEntries b (searchEntries a entries)).
  { intros a b. unfold searchEntries. rewrite filter_twice.
    apply filter_ext. intros e. apply searchMatches_app. }
  split; [apply Hcompose|]. split; [|split].
  - unfold searchEntries. apply filter_ext. intros e.
    rewrite !searchMatches_app. apply andb_comm.
  - rewrite Hcompose. apply filter_is_sublist.
  - intros q Hq. unfold searchEntries. apply filter_ext. intros e.
    unfold searchMatches, searchTerms. now rewrite Hq.
Qed.

Lemma split_space_onlySpaces s :
  onlySpaces s = true -> forall term, In term (Js.split_space s) -> term = ""%string.
Proof.
  induction s as [|c s IH]; simpl.
  - intros _ term [<-|[]]. reflexivity.
  - intros H. apply andb_true_iff in H as [Hc Hs]. rewrite Hc.
    intros term [<-|Hterm]; [reflexivity | now apply IH].
Qed.

Lemma onlySpaces_toLowerCase s : onlySpaces (Js.toLowerCase s) = onlySpaces s.
Proof.
  induction s as [|c s IH]; [reflexivity|]. simpl.
  now rewrite lowerChar_space, <- IH.
Qed.

Lemma includes_empty s : Js.includes s "" = true.
Proof. destruct s; reflexivity. Qed.

(** X13. A query made of spaces only is not a missing query: when the
    document loads, the search handler answers 200 with every record of the
    collection, in order. *)
Theorem blank_query_matches_everything
    (JSON_parse : string -> attempt JsonValue) (file : attempt string)
    (params : SearchParams) (db : Database) (query : string)
    (Hload : loadDatabase JSON_parse file = Document db)
    (Hq : params_get "q" params = Some query)
    (Hne : query <> ""%string)
    (Hblank : onlySpaces query = true) :
  handleSearchAPI JSON_parse file params
  = {| statusCode := 200;
       body := SearchBody query (length (litigationEntries db))
                 (litigationEntries db) |}.
Proof.
  rewrite (handleSearchAPI_loaded _ _ _ _ _ Hload Hq Hne).
  assert (Hall : searchEntries query (litigationEntries db) = litigationEntries db).
  { unfold searchEntries. rewrite <- (filter_all (litigationEntries db)) at 2.
    apply filter_ext. intros e. unfold searchMatches, searchTerms.
    apply forallb_forall. intros term Hterm.
    apply split_space_onlySpaces in Hterm as ->; [apply includes_empty|].
    now rewrite onlySpaces_toLowerCase. }
  now rewrite Hall.
Qed.

Lemma blank_query_matches_everything_sample :
  handleSearchAPI sampleParse sampleFile [("q", "   ")]
  = {| statusCode := 200; body := SearchBody "   " 2 [entryA; entryB] |}.
Proof.
  apply (blank_query_matches_everything sampleParse sampleFile [("q", "   ")]
           sampleDatabase "   "); [reflexivity | reflexivity | discriminate | reflexivity].
Defined.

Lemma split_space_noSpace s term :
  In term (Js.split_space s) -> noSpace term = true.
Proof.
  revert term. induction s as [|c s IH]; simpl.
  - intros term [<-|[]]. reflexivity.
  - destruct (Ascii.eqb c Js.space) eqn:Hc.
    + intros term [<-|H]; [reflexivity | now apply IH].
    + pose proof (split_space_nonempty s) as Hne.
      destruct (Js.split_space s) as [|w ws]; [congruence|].
      intros term [<-|H].
      * simpl. rewrite Hc. apply IH. now left.
      * apply IH. now right.
Qed.

Lemma noSpace_toLowerCase s : noSpace (Js.toLowerCase s) = noSpace s.
Proof.
  induction s as [|c s IH]; [reflexivity|]. simpl.
  now rewrite lowerChar_space, <- IH.
Qed.

Lemma startsWith_before_space t a b :
  noSpace t = true ->
  Js.startsWith (a ++ String Js.space b) t = true -> Js.startsWith a t = true.
Proof.
  revert a. induction t as [|d t IH]; intros a Ht; [reflexivity|].
  cbn [noSpace] in Ht. apply andb_true_iff in Ht as [Hd Ht].
  destruct a as [|c a].
  - rewrite string_app_nil_l. cbn [Js.startsWith]. intros H.
    apply andb_true_iff in H as [H _]. apply Ascii.eqb_eq in H. subst d.
    discriminate.
  - rewrite string_app_cons. cbn [Js.startsWith]. intros H.
    apply andb_true_iff in H as [Hc H]. rewrite Hc. now apply IH.
Qed.

Lemma includes_tail c s t : Js.includes s t = true -> Js.includes (String c s) t = true.
Proof. intros H. simpl. rewrite H. apply orb_true_r. Qed.

Lemma includes_around_space t a b :
  noSpace t = true ->
  Js.includes (a ++ String Js.space b) t = true ->
  Js.includes a t = true \/ Js.includes b t = true.
Proof.
  intros Ht. induction a as [|c a IH].
  - rewrite string_app_nil_l. simpl Js.includes at 1. intros H.
    apply orb_true_iff in H as [H|H]; [left|now right].
    apply (startsWith_before_space t "" b Ht) in H. simpl. now rewrite H.
  - rewrite string_app_cons. simpl Js.includes at 1. intros H.
    apply orb_true_iff in H as [H|H].
    + left. change (String c (a ++ String Js.space b))
        with (String c a ++ String Js.space b)%string in H.
      apply (startsWith_before_space t _ b Ht) in H. simpl. now rewrite H.
    + destruct (IH H) as [Ha|Hb]; [left; now apply includes_tail | now right].
Qed.

Lemma occursIn_app_r needle front hay :
  occursIn needle hay -> occursIn needle (front ++ hay).
Proof.
  intros [pre [post ->]]. exists (front ++ pre)%string, post.
  now rewrite string_app_assoc.
Qed.

(** In the text of fields joined by spaces, a term without a space occurs
    exactly when it occurs in one of the fields. *)
Lemma occursIn_join_space t fields :
  noSpace t = true -> fields <> [] ->
  occursIn t (Js.join_space fields) <-> exists field, In field fields /\ occursIn t field.
Proof.
  intros Ht. induction fields as [|p fields IH]; [congruence|]. intros _.
  destruct fields as [|q fields].
  - simpl. split; [intros H; exists p; tauto|].
    intros [field [[<-|[]] H]]. exact H.
  - change (Js.join_space (p :: q :: fields))
      with (p ++ String Js.space (Js.join_space (q :: fields)))%string.
    split.
    + intros H. apply includes_spec in H.
      apply (includes_around_space t _ _ Ht) in H as [H|H];
        apply includes_spec in H.
      * exists p. split; [now left | exact H].
      * apply IH in H as [field [Hin H]]; [|discriminate].
        exists field. split; [now right | exact H].
    + intros [field [[<-|Hin] H]].
      * now apply occursIn_app_l.
      * apply occursIn_app_r.
        change (String Js.space (Js.join_space (q :: fields)))
          with (" " ++ Js.join_space (q :: fields))%string.
        apply occursIn_app_r. apply IH; [discriminate|]. eauto.
Qed.

Lemma join_space_toLowerCase fields :
  Js.toLowerCase (Js.join_space fields)
  = Js.join_space (List.map Js.toLowerCase fields).
Proof.
  induction fields as [|p fields IH]; [reflexivity|].
  destruct fields as [|q fields]; [reflexivity|].
  change (Js.join_space (p :: q :: fields))
    with (p ++ String Js.space (Js.join_space (q :: fields)))%string.
  unfold Js.toLowerCase in *. rewrite mapChars_app.
  change (Js.mapChars Js.lowerChar (String Js.space (Js.join_space (q :: fields))))
    with (String Js.space (Js.mapChars Js.lowerChar (Js.join_space (q :: fields)))).
  rewrite IH. reflexivity.
Qed.

Lemma contains_in_some_field term fields :
  noSpace term = true -> fields <> [] ->
  containsIgnoringCase (Js.join_space fields) term
  <-> exists field, In field fields /\ containsIgnoringCase field term.
Proof.
  intros Ht Hne. unfold containsIgnoringCase.
  rewrite join_space_toLowerCase, occursIn_join_space.
  - split.
    + intros [lowered [Hin H]]. apply in_map_iff in Hin as [field [<- Hin]]. eauto.
    + intros [field [Hin H]]. exists (Js.toLowerCase field).
      split; [now apply in_map | exact H].
  - now rewrite noSpace_toLowerCase.
  - destruct fields; [congruence | discriminate].
Qed.

(** X14. The search works field by field: a record is among the results
    exactly when each term of the query occurs, up to case, inside one of its
    searchable fields (case name, claims summary, narrative assessment, an
    agency code or a community label); a term never matches across the
    boundary of two fields. *)
Theorem search_is_per_field (query : string) (entries : list Entry) (e : Entry) :
  In e (searchEntries query entries)
  <-> In e entries /\
      forall term, In term (Js.split_space query) ->
        exists field,
          In field (searchableFields e) /\ containsIgnoringCase field term.
Proof.
  unfold searchEntries. rewrite filter_In, searchMatches_spec.
  apply and_iff_compat_l.
  split; intros H term Hterm; specialize (H term Hterm);
    apply (contains_in_some_field term (searchableFields e)); trivial;
    solve [ now apply (split_space_noSpace query) | discriminate ].
Qed.

(** ** Totals of the statistics *)

Lemma bump_all_plain (keys : list string) (acc : gmap string StoredValue)
    (total : nat) :
  (forall key, In key keys -> inherited key = false) ->
  sumValues acc = Some total ->
  sumValues (List.fold_left bump keys acc) = Some (total + length keys)
  /\ forall key, countOf (List.fold_left bump keys acc) key
                 = countOf acc key + occurrences key keys.
Proof.
  revert acc total. induction keys as [|k keys IH]; intros acc total Hplain Hsum.
  - simpl. split; [now rewrite Nat.add_0_r|]. intros key. unfold occurrences.
    simpl. lia.
  - destruct (bump_plain acc k total (Hplain k (or_introl eq_refl)) Hsum)
      as [Hsum' Hcount'].
    destruct (IH (bump acc k) (total + 1)) as [Hsum'' Hcount''];
      [intros key Hkey; apply Hplain; now right | exact Hsum' |].
    simpl List.fold_left. split.
    + rewrite Hsum''. simpl. f_equal. lia.
    + intros key. rewrite Hcount'', Hcount'. unfold occurrences. simpl.
      destruct (decide (k = key)) as [->|Hne].
      * rewrite String.eqb_refl. simpl. lia.
      * apply not_eq_sym in Hne. apply String.eqb_neq in Hne. rewrite Hne. lia.
Qed.

Lemma fold_left_through_map {A B C} (g : A -> C -> A) (h : B -> C)
    (l : list B) (a : A) :
  List.fold_left (fun acc x => g acc (h x)) l a = List.fold_left g (List.map h l) a.
Proof. revert a. induction l as [|x l IH]; intros a; simpl; [reflexivity | apply IH]. Qed.

Lemma fold_left_through_flat_map {A B C} (g : A -> C -> A) (f : B -> list C)
    (l : list B) (a : A) :
  List.fold_left (fun acc x => List.fold_left g (f x) acc) l a
  = List.fold_left g (List.flat_map f l) a.
Proof.
  revert a. induction l as [|x l IH]; intros a; simpl; [reflexivity|].
  now rewrite IH, fold_left_app.
Qed.

Lemma fold_left_pointwise {A B} (f g : A -> B -> A) (l : list B) (a : A) :
  (forall acc x, f acc x = g acc x) -> List.fold_left f l a = List.fold_left g l a.
Proof.
  intros H. revert a. induction l as [|x l IH]; intros a; simpl; [reflexivity|].
  now rewrite H, IH.
Qed.

Lemma countByAgency_references entries :
  countByAgency entries = List.fold_left bump (agencyReferences entries) ∅.
Proof.
  unfold countByAgency, agencyReferences.
  rewrite <- fold_left_through_flat_map. apply fold_left_pointwise.
  intros acc e. apply fold_left_through_map.
Qed.

Lemma countByCommunity_labels entries :
  countByCommunity entries = List.fold_left bump (communityLabels entries) ∅.
Proof.
  unfold countByCommunity, communityLabels.
  now rewrite <- fold_left_through_flat_map.
Qed.

(** X15. [byAgency] counts references, not records: when no agency code
    names an inherited member, its counts add up to the number of agency
    references of the collection, and the count of a code is the number of
    references to it, so a record naming an agency twice counts twice and a
    record without agencies counts nowhere. *)
Theorem agency_totals (entries : list Entry)
    (Hcodes : forall code, In code (agencyReferences entries) ->
                           inherited code = false) :
  sumValues (countByAgency entries) = Some (length (agencyReferences entries))
  /\ forall code, countOf (countByAgency entries) code
                  = occurrences code (agencyReferences entries).
Proof.
  rewrite countByAgency_references.
  destruct (bump_all_plain (agencyReferences entries) ∅ 0 Hcodes sumValues_empty)
    as [Hsum Hcount].
  split; [exact Hsum|]. intros code. rewrite Hcount. unfold countOf.
  now rewrite lookup_empty.
Qed.

Lemma agency_totals_sample :
  sumValues (countByAgency [entryA; entryB; entryC]) = Some 3
  /\ countOf (countByAgency [entryA; entryB; entryC]) "USDA" = 1.
Proof.
  assert (Hcodes : forall code, In code (agencyReferences [entryA; entryB; entryC]) ->
                                inherited code = false).
  { intros code [<-|[<-|[<-|[]]]]; reflexivity. }
  destruct (agency_totals [entryA; entryB; entryC] Hcodes) as [Hsum Hcount].
  split; [exact Hsum | rewrite Hcount; reflexivity].
Defined.

(** X16. [byCommunity] counts labels: when no community label names an
    inherited member, its counts add up to the number of labels listed by the
    records of the collection, and the count of a label is the number of
    times it is listed. *)
Theorem community_totals (entries : list Entry)
    (Hlabels : forall label, In label (communityLabels entries) ->
                             inherited label = false) :
  sumValues (countByCommunity entries) = Some (length (communityLabels entries))
  /\ forall label, countOf (countByCommunity entries) label
                   = occurrences label (communityLabels entries).
Proof.
  rewrite countByCommunity_labels.
  destruct (bump_all_plain (communityLabels entries) ∅ 0 Hlabels sumValues_empty)
    as [Hsum Hcount].
  split; [exact Hsum|]. intros label. rewrite Hcount. unfold countOf.
  now rewrite lookup_empty.
Qed.

Lemma community_totals_sample :
  sumValues (countByCommunity [entryA; entryB; entryC]) = Some 3
  /\ countOf (countByCommunity [entryA; entryB; entryC]) "Indigenous" = 2.
Proof.
  assert (Hlabels : forall label, In label (communityLabels [entryA; entryB; entryC]) ->
                                  inherited label = false).
  { intros label [<-|[<-|[<-|[]]]]; reflexivity. }
  destruct (community_totals [entryA; entryB; entryC] Hlabels) as [Hsum Hcount].
  split; [exact Hsum | rewrite Hcount; reflexivity].
Defined.

Lemma filterEntries_classification_only criterion entries :
  criterion <> ""%string ->
  filterEntries [("classification", criterion)] entries
  = List.filter (classificationIs criterion) entries.
Proof.
  intros Hc. unfold filterEntries.
  change (params_get "classification" [("classification", criterion)])
    with (Some criterion).
  rewrite !(params_get_single_other _ "classification") by reflexivity.
  unfold filterWhen. now apply nonEmpty_true in Hc as ->.
Qed.

(** X17. The statistics and the filter agree: when no classification names
    an inherited member, the count that [byClassification] holds for the
    upper-cased criterion is the number of records the filter returns for
    that classification. *)
Theorem classification_count_matches_filter (entries : list Entry)
    (criterion : string)
    (Hvalues : forall e, In e entries -> inherited (classification e) = false)
    (Hcriterion : criterion <> ""%string) :
  countOf (countByClassification entries) (Js.toUpperCase criterion)
  = length (filterEntries [("classification", criterion)] entries).
Proof.
  destruct (count_by_plain_key classification entries Hvalues) as (_ & Hcount & _).
  unfold countByClassification. rewrite Hcount.
  now rewrite filterEntries_classification_only.
Qed.

Lemma classification_count_matches_filter_sample :
  countOf (countByClassification [entryA; entryB; entryC; entryD]) "CRITICAL"
  = length (filterEntries [("classification", "critical")]
              [entryA; entryB; entryC; entryD]).
Proof.
  apply (classification_count_matches_filter [entryA; entryB; entryC; entryD] "critical").
  - intros e [<-|[<-|[<-|[<-|[]]]]]; reflexivity.
  - discriminate.
Defined.

(** ** The front end *)

Lemma filter_sublist_mono {A} (f g : A -> bool) (l : list A) :
  (forall x, f x = true -> g x = true) ->
  sublist (List.filter f l) (List.filter g l).
Proof.
  intros H. induction l as [|x l IH]; simpl; [constructor|].
  destruct (f x) eqn:Hf; [rewrite (H x Hf); now constructor|].
  destruct (g x); [now constructor | exact IH].
Qed.

Lemma keeps_three c a m e :
  keeps [("classification", c); ("agency", a); ("community", m)] e
  = passes (Some c) classificationIs e
    && passes (Some a) agencyInvolved e
    && passes (Some m) communityAffected e.
Proof.
  change (keeps [("classification", c); ("agency", a); ("community", m)] e)
    with (passes (Some c) classificationIs e
          && passes (Some a) agencyInvolved e
          && passes (Some m) communityAffected e && true && true).
  now rewrite !andb_true_r.
Qed.

Lemma exact_agency_involved a e :
  List.existsb (fun r => String.eqb (agency r) a) (agenciesInvolved e) = true ->
  agencyInvolved a e = true.
Proof.
  unfold agencyInvolved. rewrite !existsb_exists. intros [r [Hr H]].
  exists r. split; [exact Hr|]. unfold agencyRefMatches.
  apply String.eqb_eq in H. rewrite H, String.eqb_refl. reflexivity.
Qed.

Lemma filterMatch_conj c a m e :
  filterMatch c a m e
  = (negb (Js.nonEmpty c) || String.eqb (classification e) c)
    && (negb (Js.nonEmpty a)
        || List.existsb (fun r => String.eqb (agency r) a) (agenciesInvolved e))
    && (negb (Js.nonEmpty m) || communityAffected m e).
Proof.
  unfold filterMatch, communityAffected. cbv zeta.
  destruct (Js.nonEmpty c), (String.eqb (classification e) c),
    (Js.nonEmpty a), (List.existsb _ (agenciesInvolved e)),
    (Js.nonEmpty m), (List.existsb _ (affectedCommunities _)); reflexivity.
Qed.

Lemma passes_some c keep e :
  passes (Some c) keep e = negb (Js.nonEmpty c) || keep c e.
Proof. unfold passes. now destruct (Js.nonEmpty c). Qed.

Lemma filterMatch_keeps c a m e :
  Js.toUpperCase c = c ->
  filterMatch c a m e = true ->
  keeps [("classification", c); ("agency", a); ("community", m)] e = true.
Proof.
  intros Hc. rewrite keeps_three, filterMatch_conj, !passes_some.
  unfold classificationIs. rewrite Hc, !andb_true_iff, !orb_true_iff.
  intros [[H1 H2] H3]. repeat split; try assumption.
  destruct H2 as [H2|H2]; [now left | right; now apply exact_agency_involved].
Qed.

Lemma filterMatch_no_agency c m e :
  Js.toUpperCase c = c ->
  filterMatch c "" m e
  = keeps [("classification", c); ("agency", ""); ("community", m)] e.
Proof.
  intros Hc. rewrite keeps_three, filterMatch_conj, !passes_some.
  unfold classificationIs. now rewrite Hc.
Qed.

(** X18. The select boxes of the front end filter more narrowly than the
    server: for a classification value in upper case, the entries
    [applyFilters] shows are among those the filter of the server returns
    for the same classification, agency and community, in the same order,
    and they are the same when no agency is selected. *)
Theorem applyFilters_within_server_filter
    (classificationValue agencyValue communityValue : string) (s : AppState)
    (Hcanonical : Js.toUpperCase classificationValue = classificationValue) :
  exists shown,
    filteredEntries (applyFilters classificationValue agencyValue communityValue s)
    = Some shown
    /\ sublist shown
         (filterEntries [("classification", classificationValue);
                         ("agency", agencyValue);
                         ("community", communityValue)] (allEntries s))
    /\ (agencyValue = ""%string ->
        shown = filterEntries [("classification", classificationValue);
                               ("agency", agencyValue);
                               ("community", communityValue)] (allEntries s)).
Proof.
  eexists. split; [reflexivity|]. rewrite filterEntries_one_pass. split.
  - apply filter_sublist_mono. intros e. now apply filterMatch_keeps.
  - intros ->. apply filter_ext. intros e. now apply filterMatch_no_agency.
Qed.

Lemma applyFilters_within_server_filter_sample :
  filteredEntries
    (applyFilters "CRITICAL" "" "indigenous"
       {| allEntries := [entryA; entryB; entryC]; filteredEntries := None |})
  = Some (filterEntries [("classification", "CRITICAL"); ("agency", "");
                         ("community", "indigenous")] [entryA; entryB; entryC]).
Proof.
  destruct (applyFilters_within_server_filter "CRITICAL" "" "indigenous"
              {| allEntries := [entryA; entryB; entryC]; filteredEntries := None |}
              eq_refl) as (shown & Hshown & _ & Hsame).
  rewrite Hshown. f_equal. now apply Hsame.
Defined.

(** X19. Search and filters do not combine in the front end: each of
    [performSearch] and [applyFilters] computes the listing from
    [allEntries] alone, which neither changes, so filtering after a search
    shows what filtering alone shows, and a search that is answered after
    filtering shows what the search alone shows. *)
Theorem last_action_wins
    (classificationValue agencyValue communityValue input : string)
    (reply : string -> attempt Body) (s : AppState) :
  allEntries (performSearch input reply s) = allEntries s
  /\ allEntries (applyFilters classificationValue agencyValue communityValue s)
     = allEntries s
  /\ applyFilters classificationValue agencyValue communityValue
       (performSearch input reply s)
     = applyFilters classificationValue agencyValue communityValue s
  /\ (forall query data,
        searchRequest input = Some query -> reply query = Returned data ->
        performSearch input reply
          (applyFilters classificationValue agencyValue communityValue s)
        = performSearch input reply s).
Proof.
  assert (Hall : allEntries (performSearch input reply s) = allEntries s).
  { unfold performSearch. destruct (searchRequest input) as [query|];
      [destruct (reply query)|]; reflexivity. }
  split; [exact Hall|]. split; [reflexivity|]. split.
  - unfold applyFilters. now rewrite Hall.
  - intros query data Hq Hreply. unfold performSearch. now rewrite Hq, Hreply.
Qed.

Lemma is_space_isTrimSpace c : Ascii.is_space c = true -> isTrimSpace c = true.
Proof. intros H. unfold isTrimSpace. now rewrite H. Qed.

Lemma ascii_isTrimSpace c :
  (nat_of_ascii c <? 128)%nat = true -> isTrimSpace c = Ascii.is_space c.
Proof.
  intros H. unfold isTrimSpace. destruct (Ascii.eqb_spec c "160") as [->|_].
  - discriminate.
  - apply orb_false_r.
Qed.

Lemma trimStart_blank s : blank s = true -> trimStart s = ""%string.
Proof.
  induction s as [|c s IH]; [reflexivity|]. cbn [blank trimStart].
  intros H. apply andb_true_iff in H as [Hc Hs].
  rewrite (is_space_isTrimSpace c Hc). now apply IH.
Qed.

Lemma trimStart_not_blank s :
  asciiOnly s = true -> blank s = false ->
  exists c rest, trimStart s = String c rest /\ isTrimSpace c = false.
Proof.
  induction s as [|c s IH]; [discriminate|]. cbn [asciiOnly blank trimStart].
  intros Hascii Hb. apply andb_true_iff in Hascii as [Hc Hs].
  rewrite (ascii_isTrimSpace c Hc).
  destruct (Ascii.is_space c) eqn:Hspace; [now apply IH|].
  exists c, s. split; [reflexivity|]. now rewrite (ascii_isTrimSpace c Hc).
Qed.

Lemma trimEnd_keeps_head c rest :
  isTrimSpace c = false -> Js.nonEmpty (trimEnd (String c rest)) = true.
Proof. intros Hc. simpl. rewrite Hc. now destruct (trimEnd rest). Qed.

Lemma trim_blank input : blank input = true -> trim input = ""%string.
Proof. intros H. unfold trim. now rewrite (trimStart_blank input H). Qed.

Lemma trim_not_blank input :
  asciiOnly input = true -> blank input = false -> trim input <> ""%string.
Proof.
  intros Hascii Hb.
  destruct (trimStart_not_blank input Hascii Hb) as (c & rest & Hstart & Hc).
  unfold trim. rewrite Hstart. apply nonEmpty_true. now apply trimEnd_keeps_head.
Qed.

Lemma searchRequest_empty input :
  trim input = ""%string -> searchRequest input = None.
Proof. intros H. unfold searchRequest. now rewrite H. Qed.

Lemma searchRequest_sent input :
  trim input <> ""%string -> searchRequest input = Some (trim input).
Proof.
  intros H. unfold searchRequest. cbv zeta. now apply nonEmpty_true in H as ->.
Qed.

(** X20. A search box whose trimmed text is empty sends no request:
    [performSearch] shows every entry again, whatever the server would have
    answered; otherwise the trimmed text is sent. A box of ASCII white space
    trims to nothing, and a box of ASCII characters that are not all white
    space does not. *)
Theorem blank_search_shows_all (input : string) :
  (trim input = ""%string ->
   forall reply s,
     performSearch input reply s
     = {| allEntries := allEntries s; filteredEntries := Some (allEntries s) |})
  /\ (trim input <> ""%string -> searchRequest input = Some (trim input))
  /\ (blank input = true -> trim input = ""%string)
  /\ (asciiOnly input = true -> blank input = false -> trim input <> ""%string).
Proof.
  split; [|split; [apply searchRequest_sent|split;
                   [apply trim_blank | apply trim_not_blank]]].
  intros Hempty reply s. unfold performSearch.
  now rewrite (searchRequest_empty input Hempty).
Qed.

Lemma blank_search_shows_all_sample :
  performSearch "  " (fun _ => Thrown)
    {| allEntries := [entryA; entryB]; filteredEntries := Some [entryB] |}
  = {| allEntries := [entryA; entryB]; filteredEntries := Some [entryA; entryB] |}
  /\ searchRequest "  land rights " = Some "land rights"%string.
Proof.
  destruct (blank_search_shows_all "  ") as (Hshow & _ & Hblank & _).
  destruct (blank_search_shows_all "  land rights ") as (_ & Hsent & _ & Hnot).
  split.
  - apply Hshow. now apply Hblank.
  - rewrite Hsent; [reflexivity|]. now apply Hnot.
Defined.

(** X21. A search typed in the front end gets no results from the server of
    this repository: the request goes to "/api/litigation/search", the
    listener hands it to the filter handler, whose JSON has no [results]
    member, so for any input whose trimmed text is not empty
    [filteredEntries] is left undefined, whatever the document holds. *)
Theorem front_end_search_gets_no_results
    (JSON_parse : string -> attempt JsonValue) (file : attempt string)
    (fs : FileSystem) (reply : string -> attempt Body)
    (input : string) (s : AppState)
    (Hserver : answeredBy JSON_parse file fs reply)
    (Hinput : trim input <> ""%string) :
  filteredEntries (performSearch input reply s) = None.
Proof.
  unfold performSearch. rewrite (searchRequest_sent input Hinput).
  rewrite (Hserver (trim input)
             (handleLitigationAPI JSON_parse file [("q", trim input)])).
  - simpl. unfold handleLitigationAPI.
    now destruct (loadDatabase JSON_parse file).
  - now apply listener_litigation.
Qed.

Lemma front_end_search_gets_no_results_sample :
  filteredEntries
    (performSearch "alpha"
       (fun query =>
          Returned (body (handleLitigationAPI sampleParse sampleFile [("q", query)])))
       {| allEntries := [entryA; entryB]; filteredEntries := Some [entryA; entryB] |})
  = None.
Proof.
  apply (front_end_search_gets_no_results sampleParse sampleFile
           {| path_join := fun p => p; path_extname := fun _ => ""%string;
              readFile := fun _ => NoEntry |}).
  - intros query response H.
    rewrite listener_litigation in H by reflexivity. now injection H as <-.
  - discriminate.
Defined.

Lemma filterEntries_community_only community entries :
  community <> ""%string ->
  filterEntries [("community", community)] entries
  = List.filter (communityAffected community) entries.
Proof.
  intros Hc. unfold filterEntries.
  change (params_get "community" [("community", community)]) with (Some community).
  rewrite !(params_get_single_other _ "community") by reflexivity.
  unfold filterWhen. now apply nonEmpty_true in Hc as ->.
Qed.

(** X22. The community view agrees with the server: for a community that is
    not empty, the cases [showCommunityCases] lists are the records the
    filter returns for that community, and the number
    [updateCommunityStats] writes is their count. *)
Theorem community_view_matches_filter (community : string)
    (entries : list Entry) (Hcommunity : community <> ""%string) :
  showCommunityCases community entries
  = filterEntries [("community", community)] entries
  /\ updateCommunityStats community entries
     = length (filterEntries [("community", community)] entries).
Proof.
  unfold updateCommunityStats.
  now rewrite (filterEntries_community_only community entries Hcommunity).
Qed.

Lemma community_view_matches_filter_sample :
  updateCommunityStats "RURAL" [entryA; entryB; entryC]
  = length (filterEntries [("community", "RURAL")] [entryA; entryB; entryC]).
Proof.
  apply (community_view_matches_filter "RURAL" [entryA; entryB; entryC]).
  discriminate.
Defined.

Lemma in_prefix {A} n (l : list A) x : In x (List.firstn n l) -> In x l.
Proof.
  intros H. rewrite <- (firstn_skipn n l). apply in_or_app. now left.
Qed.

(** X23. [renderDashboard] draws nothing while [stats] is null. With a
    statistics object it shows, as cards, the first six records, in order,
    that the filter returns for the classification CRITICAL, and its
    critical stat card reads the CRITICAL member of [byClassification]; when
    that object is the count of the same records and no classification names
    an inherited member, the number of cards is the smaller of six and that
    count. With what the listener of this repository answers on
    "/api/litigation/stats", which has no [byClassification] member, it
    throws before any card is drawn. *)
Theorem critical_cards (entries : list Entry) :
  renderDashboard None entries = Returned None
  /\ (forall total byClassification byAgency byCommunity byStatus updated,
        exists board,
          renderDashboard
            (Some (StatsBody total byClassification byAgency byCommunity
                     byStatus updated)) entries
          = Returned (Some board)
          /\ criticalCards board
             = List.firstn 6
                 (filterEntries [("classification", "CRITICAL")] entries)
          /\ length (criticalCards board) <= 6
          /\ (forall e, In e (criticalCards board) ->
                        In e entries /\ classification e = "CRITICAL"%string)
          /\ statCritical board = statCard byClassification "CRITICAL"
          /\ ((forall e, In e entries -> inherited (classification e) = false) ->
              byClassification = countByClassification entries ->
              length (criticalCards board)
              = Nat.min 6 (countOf byClassification "CRITICAL")))
  /\ (forall JSON_parse file fs stats,
        statsAnsweredBy JSON_parse file fs stats ->
        renderDashboard stats entries = Thrown).
Proof.
  assert (Hfilter : filterEntries [("classification", "CRITICAL")] entries
                    = List.filter (fun e => String.eqb (classification e) "CRITICAL")
                        entries).
  { now rewrite filterEntries_classification_only. }
  split; [reflexivity|]. split.
  - intros total byClassification byAgency byCommunity byStatus updated.
    eexists. split; [reflexivity|]. cbn [criticalCards statCritical].
    split; [now rewrite Hfilter|]. split; [apply List.firstn_le_length|].
    split; [|split; [reflexivity|]].
    + intros e He. apply in_prefix in He.
      apply filter_In in He as [Hin He].
      split; [exact Hin | now apply String.eqb_eq].
    + intros Hvalues ->.
      destruct (count_by_plain_key classification entries Hvalues)
        as (_ & Hcount & _).
      unfold countByClassification. rewrite Hcount. apply List.length_firstn.
  - intros JSON_parse file fs stats (response & Hreply & ->).
    rewrite listener_litigation in Hreply by reflexivity.
    injection Hreply as <-. unfold handleLitigationAPI.
    now destruct (loadDatabase JSON_parse file).
Qed.

Lemma critical_cards_sample :
  (exists board,
     renderDashboard
       (Some (StatsBody 4 (countByClassification [entryA; entryB; entryC; entryD])
                ∅ ∅ ∅ "2025-06-01"))
       [entryA; entryB; entryC; entryD]
     = Returned (Some board)
     /\ criticalCards board = [entryA; entryD]
     /\ statCritical board = Num 2)
  /\ renderDashboard
       (Some (body (handleLitigationAPI sampleParse sampleFile [])))
       [entryA; entryB]
     = Thrown.
Proof.
  destruct (critical_cards [entryA; entryB; entryC; entryD])
    as (_ & Hboard & _).
  destruct (critical_cards [entryA; entryB]) as (_ & _ & Hthrown).
  split.
  - destruct (Hboard 4 (countByClassification [entryA; entryB; entryC; entryD])
                ∅ ∅ ∅ "2025-06-01"%string)
      as (board & Hrender & Hcards & _ & _ & Hstat & _).
    exists board. split; [exact Hrender|]. split.
    + rewrite Hcards. reflexivity.
    + rewrite Hstat. vm_compute. reflexivity.
  - apply (Hthrown sampleParse sampleFile
             {| path_join := fun p => p; path_extname := fun _ => ""%string;
                readFile := fun _ => NoEntry |}).
    eexists. split; [now apply listener_litigation|reflexivity].
Defined.

Lemma find_is_head_of_filter {A} (f : A -> bool) (l : list A) :
  List.find f l = List.head (List.filter f l).
Proof.
  induction l as [|x l IH]; [reflexivity|]. simpl. now destruct (f x).
Qed.

Lemma filterEntries_id_only caseId entries :
  caseId <> ""%string ->
  filterEntries [("id", caseId)] entries = List.filter (idIs caseId) entries.
Proof.
  intros Hc. unfold filterEntries.
  change (params_get "id" [("id", caseId)]) with (Some caseId).
  rewrite !(params_get_single_other _ "id") by reflexivity.
  unfold filterWhen. now apply nonEmpty_true in Hc as ->.
Qed.

(** X24. The case a click opens is the first record with the card's
    identifier: [showCaseDetail] finds nothing exactly when no entry has
    that identifier, and otherwise finds the first record that the filter of
    the server returns for that id. *)
Theorem case_detail_lookup (caseId : string) (entries : list Entry)
    (Hid : caseId <> ""%string) :
  showCaseDetail caseId entries
  = List.head (filterEntries [("id", caseId)] entries)
  /\ (showCaseDetail caseId entries = None
      <-> forall e, In e entries -> id e <> caseId).
Proof.
  unfold showCaseDetail. split.
  - rewrite (filterEntries_id_only caseId entries Hid). apply find_is_head_of_filter.
  - split.
    + intros Hnone e He Heq.
      apply (List.find_none _ _ Hnone) in He. simpl in He.
      apply String.eqb_neq in He. contradiction.
    + intros Hnone. destruct (List.find _ entries) as [e|] eqn:Hfind; [|reflexivity].
      apply List.find_some in Hfind as [He Heq]. apply String.eqb_eq in Heq.
      now destruct (Hnone e He).
Qed.

Lemma case_detail_lookup_sample :
  showCaseDetail "DOI-2024-007" [entryA; entryB; entryC] = Some entryB.
Proof.
  assert (Hid : "DOI-2024-007"%string <> ""%string) by discriminate.
  destruct (case_detail_lookup "DOI-2024-007" [entryA; entryB; entryC] Hid) as [H _].
  rewrite H. reflexivity.
Defined.

Lemma countByAgency_occurrences entries code :
  (forall c, In c (agencyReferences entries) -> inherited c = false) ->
  countOf (countByAgency entries) code = occurrences code (agencyReferences entries).
Proof.
  intros Hcodes. rewrite countByAgency_references.
  destruct (bump_all_plain (agencyReferences entries) ∅ 0 Hcodes sumValues_empty)
    as [_ Hcount].
  rewrite Hcount. unfold countOf. now rewrite lookup_empty.
Qed.

Lemma filterEntries_agency_only agencyValue entries :
  agencyValue <> ""%string ->
  filterEntries [("agency", agencyValue)] entries
  = List.filter (agencyInvolved agencyValue) entries.
Proof.
  intros Hc. unfold filterEntries.
  change (params_get "agency" [("agency", agencyValue)]) with (Some agencyValue).
  rewrite !(params_get_single_other _ "agency") by reflexivity.
  unfold filterWhen. now apply nonEmpty_true in Hc as ->.
Qed.

Lemma named_at_least_once a (refs : list AgencyRef) :
  List.existsb (fun r => String.eqb (agency r) a) refs = true ->
  1 <= occurrences a (List.map agency refs).
Proof.
  unfold occurrences. induction refs as [|r refs IH]; [discriminate|]. simpl.
  rewrite (String.eqb_sym a (agency r)).
  destruct (String.eqb (agency r) a); simpl; [lia | exact IH].
Qed.

Lemma occurrences_app key keys more :
  occurrences key (keys ++ more) = occurrences key keys + occurrences key more.
Proof. unfold occurrences. now rewrite List.filter_app, length_app. Qed.

(** X25. The agency view lists records, the statistics count references:
    for an agency that is not empty, the cases [showAgencyCases] lists are
    among the records the filter of the server returns for it, and when no
    agency code names an inherited member their number is at most the count
    [byAgency] holds for the agency. *)
Theorem agency_cases_within_count (agencyValue : string) (entries : list Entry)
    (Hagency : agencyValue <> ""%string)
    (Hcodes : forall code, In code (agencyReferences entries) ->
                           inherited code = false) :
  sublist (showAgencyCases agencyValue entries)
    (filterEntries [("agency", agencyValue)] entries)
  /\ length (showAgencyCases agencyValue entries)
     <= countOf (countByAgency entries) agencyValue.
Proof.
  split.
  - rewrite (filterEntries_agency_only agencyValue entries Hagency).
    apply filter_sublist_mono. intros e. apply exact_agency_involved.
  - rewrite (countByAgency_occurrences entries agencyValue Hcodes).
    clear Hcodes. unfold showAgencyCases, agencyReferences.
    induction entries as [|e entries IH]; [simpl; lia|].
    simpl List.flat_map. rewrite occurrences_app. simpl List.filter.
    destruct (List.existsb _ (agenciesInvolved e)) eqn:He.
    + apply named_at_least_once in He. simpl length. lia.
    + lia.
Qed.

Lemma agency_cases_within_count_sample :
  length (showAgencyCases "DOI" [entryA; entryB; entryD])
  <= countOf (countByAgency [entryA; entryB; entryD]) "DOI".
Proof.
  apply (agency_cases_within_count "DOI" [entryA; entryB; entryD]).
  - discriminate.
  - intros code [<-|[<-|[<-|[<-|[]]]]]; reflexivity.
Defined.
